(** * scripts/migrate_normalizers.py: the normalizer migration, embedded

    The script rewrites Rust source text: it adds an import, locates every
    [impl ResourceNormalizer for XxxNormalizer {] block with regular
    expressions, swaps the tag extraction statement for an asynchronous fetch
    and splices an [AsyncResourceNormalizer] copy in front of the block.

    Text is a list of characters ([list ascii]); offsets are [nat]; Python
    slices [s[a:b]] are [take]/[drop], which clamp like Python does.  The
    model covers ASCII buffers: a character of code 128 or more is classed as
    neither [\s] nor [\w].  The regular expressions of the script use only
    literals, a greedy repeated character class and one capture group, and
    are run by a backtracking matcher with Python's leftmost, greedy
    semantics. *)

From Stdlib Require Import ZArith Ascii String.
From stdpp Require Import base list strings gmap pretty.

Local Open Scope Z_scope.
Local Open Scope nat_scope.

(** ** Text *)

Abbreviation text := (list ascii).

Definition str (s : string) : text := list_ascii_of_string s.

Definition nl : text := ["010"%char].
Definition dq : text := ["034"%char].

(** [s[a:b]] for [0 <= a], [0 <= b]. *)
Definition slice (a b : nat) (s : text) : text := take (b - a) (drop a s).

(** [\s] on ASCII: tab, LF, VT, FF, CR, the four separators 28..31, space. *)
Definition is_space (c : ascii) : bool :=
  let n := nat_of_ascii c in
  ((9 <=? n) && (n <=? 13)) || ((28 <=? n) && (n <=? 32)).

(** [\w] on ASCII: letters, digits and the underscore. *)
Definition is_word (c : ascii) : bool :=
  let n := nat_of_ascii c in
  ((48 <=? n) && (n <=? 57)) || ((65 <=? n) && (n <=? 90))
  || ((97 <=? n) && (n <=? 122)) || (n =? 95).

(** Any character but the double quote (code 34). *)
Definition not_dq (c : ascii) : bool := negb (Ascii.eqb c "034").

Definition is_open_brace (c : ascii) : bool := Ascii.eqb c "{".
Definition is_close_brace (c : ascii) : bool := Ascii.eqb c "}".

(** ** Python [str] operations *)

(** [s.startswith(p)], returning the rest of [s] after [p]. *)
Fixpoint strip_prefix (p s : text) : option text :=
  match p with
  | [] => Some s
  | a :: p' =>
      match s with
      | [] => None
      | b :: s' => if Ascii.eqb a b then strip_prefix p' s' else None
      end
  end.

Definition starts_with (p s : text) : bool :=
  match strip_prefix p s with Some _ => true | None => false end.

(** [s.find(sub)]: the lowest offset where [sub] occurs, [None] for -1. *)
Fixpoint find_from (sub s : text) (pos : nat) : option nat :=
  if starts_with sub s then Some pos
  else match s with
       | [] => None
       | _ :: s' => find_from sub s' (S pos)
       end.

Definition find (sub s : text) : option nat := find_from sub s 0.

(** [sub in s] *)
Definition contains (sub s : text) : bool :=
  match find sub s with Some _ => true | None => false end.

(** [s.replace(old, new)] for a non-empty [old]: every occurrence, left to
    right, without overlap.  [skip] counts the characters of an occurrence
    still to be passed over. *)
Fixpoint replace_skip (old new s : text) (skip : nat) : text :=
  match s with
  | [] => []
  | c :: s' =>
      match skip with
      | S k => replace_skip old new s' k
      | O =>
          if starts_with old s
          then new ++ replace_skip old new s' (length old - 1)
          else c :: replace_skip old new s' 0
      end
  end.

(** For an empty [old] Python puts [new] before every character and at the
    end. *)
Fixpoint intersperse_all (new s : text) : text :=
  match s with
  | [] => new
  | c :: s' => new ++ c :: intersperse_all new s'
  end.

Definition replace_all (old new s : text) : text :=
  match old with
  | [] => intersperse_all new s
  | _ => replace_skip old new s 0
  end.

(** [s.replace(old, new, 1)] *)
Definition replace_first (old new s : text) : text :=
  match find old s with
  | Some i => take i s ++ new ++ drop (i + length old) s
  | None => s
  end.

(** ** The regular expressions of the script *)

Inductive atom : Type :=
  | Lit (l : text)                (* literal characters *)
  | Star (p : ascii -> bool)      (* [c*], greedy *)
  | Plus (p : ascii -> bool)      (* [c+], greedy *)
  | GOpen                         (* [(] of group 1 *)
  | GClose.                       (* [)] of group 1 *)

Definition regex := list atom.

(** A match: its end offset and the span of group 1. *)
Record mres : Type := MRes { m_stop : nat; g_start : nat; g_stop : nat }.

(** Greedy repetition with backtracking: take one more character when the
    class allows and the rest of the pattern then matches; otherwise hand
    over to the rest here. *)
Fixpoint star (p : ascii -> bool) (k : text -> nat -> option mres)
    (s : text) (pos : nat) : option mres :=
  match s with
  | c :: s' =>
      if p c then
        match star p k s' (S pos) with
        | Some r => Some r
        | None => k s pos
        end
      else k s pos
  | [] => k s pos
  end.

(** [mtch r gs ge s pos]: match [r] against [s], which starts at offset
    [pos] of the searched string. *)
Fixpoint mtch (r : regex) (gs ge : nat) (s : text) (pos : nat) : option mres :=
  match r with
  | [] => Some (MRes pos gs ge)
  | Lit l :: r' =>
      match strip_prefix l s with
      | Some s' => mtch r' gs ge s' (pos + length l)
      | None => None
      end
  | Star p :: r' => star p (mtch r' gs ge) s pos
  | Plus p :: r' =>
      match s with
      | c :: s' => if p c then star p (mtch r' gs ge) s' (S pos) else None
      | [] => None
      end
  | GOpen :: r' => mtch r' pos ge s pos
  | GClose :: r' => mtch r' gs pos s pos
  end.

Definition match_at (r : regex) (s : text) (pos : nat) : option mres :=
  mtch r 0 0 s pos.

(** A match object: [start()], [end()] and the span of [group(1)]. *)
Record rmatch : Type := RMatch { r_start : nat; r_res : mres }.

Definition r_stop (m : rmatch) : nat := m_stop (r_res m).

(** [re.search]: the leftmost match. *)
Fixpoint search_from (r : regex) (s : text) (pos : nat) : option rmatch :=
  match match_at r s pos with
  | Some res => Some (RMatch pos res)
  | None =>
      match s with
      | [] => None
      | _ :: s' => search_from r s' (S pos)
      end
  end.

Definition search (r : regex) (s : text) : option rmatch := search_from r s 0.

(** [re.finditer]: leftmost matches, each search resuming where the last
    match stopped.  No pattern of the script matches the empty string. *)
Fixpoint finditer_from (r : regex) (s : text) (pos skip : nat) : list rmatch :=
  match s with
  | [] => []
  | _ :: s' =>
      match skip with
      | S k => finditer_from r s' (S pos) k
      | O =>
          match match_at r s pos with
          | Some res =>
              RMatch pos res :: finditer_from r s' (S pos) (m_stop res - pos - 1)
          | None => finditer_from r s' (S pos) 0
          end
      end
  end.

Definition finditer (r : regex) (s : text) : list rmatch := finditer_from r s 0 0.

(** [re.sub(r, repl, s)] with a replacement free of group references. *)
Fixpoint sub_from (r : regex) (repl s : text) (skip : nat) : text :=
  match s with
  | [] => []
  | c :: s' =>
      match skip with
      | S k => sub_from r repl s' k
      | O =>
          match match_at r s 0 with
          | Some res => repl ++ sub_from r repl s' (m_stop res - 1)
          | None => c :: sub_from r repl s' 0
          end
      end
  end.

Definition re_sub (r : regex) (repl s : text) : text := sub_from r repl s 0.

(** [m.group(1)] of a match found in [s]. *)
Definition group1 (s : text) (m : rmatch) : text :=
  slice (g_start (r_res m)) (g_stop (r_res m)) s.

(** ** The patterns *)

(** [impl ResourceNormalizer for (\w+Normalizer) \{] *)
Definition impl_pattern : regex :=
  [Lit (str "impl ResourceNormalizer for "); GOpen; Plus is_word;
   Lit (str "Normalizer"); GClose; Lit (str " {")].

(** The [fn normalize(...)] signature up to its closing parenthesis, every
    gap being [\s*]. *)
Definition normalize_params : regex :=
  [Lit (str "fn normalize("); Star is_space;
   Lit (str "&self,"); Star is_space;
   Lit (str "raw_response: serde_json::Value,"); Star is_space;
   Lit (str "account: &str,"); Star is_space;
   Lit (str "region: &str,"); Star is_space;
   Lit (str "query_timestamp: DateTime<Utc>,"); Star is_space].

Definition normalize_pattern : regex :=
  normalize_params ++ [Lit (str ") -> Result<ResourceEntry> {")].

(** The pattern of the [re.sub] that makes the signature asynchronous. *)
Definition signature_pattern : regex := normalize_params ++ [Lit (str ")")].

Definition tags_statement : text := str "let tags = extract_tags(&raw_response);".

(** [(\s+)let tags = extract_tags\(&raw_response\);] *)
Definition tags_pattern : regex := [GOpen; Plus is_space; GClose; Lit tags_statement].

(** [let (\w+) = raw_response] *)
Definition resource_id_pattern : regex :=
  [Lit (str "let "); GOpen; Plus is_word; GClose; Lit (str " = raw_response")].

(** [fn resource_type\(&self\) -> &'static str \{\s*Q([^Q]+)Q], where Q
    stands for the double quote, character 34. *)
Definition resource_type_pattern : regex :=
  [Lit (str "fn resource_type(&self) -> &'static str {"); Star is_space;
   Lit dq; GOpen; Plus not_dq; GClose; Lit dq].

(** ** The texts the script writes *)

Definition import_line : text := str "use async_trait::async_trait;".
Definition anyhow_line : text := str "use anyhow::Result;".
Definition chrono_line : text := str "use chrono::{DateTime, Utc};".

(** [async_tags_code]: eight lines, each led by [indent], no final newline. *)
Definition async_tags_code (indent resource_type resource_id_var : text) : text :=
  indent ++ str "// Fetch tags asynchronously from AWS API with caching" ++ nl
  ++ indent ++ str "let tags = aws_client" ++ nl
  ++ indent ++ str "    .fetch_tags_for_resource(" ++ dq ++ resource_type ++ dq
     ++ str ", &" ++ resource_id_var ++ str ", account, region)" ++ nl
  ++ indent ++ str "    .await" ++ nl
  ++ indent ++ str "    .unwrap_or_else(|e| {" ++ nl
  ++ indent ++ str "        tracing::warn!(" ++ dq ++ str "Failed to fetch tags for "
     ++ resource_type ++ str " {}: {}" ++ dq ++ str ", " ++ resource_id_var
     ++ str ", e);" ++ nl
  ++ indent ++ str "        Vec::new()" ++ nl
  ++ indent ++ str "    });".

(** The statement put back into the retained synchronous block. *)
Definition fallback_code (indent : text) : text :=
  indent ++ tags_statement ++ str " // Fallback to local extraction for sync path".

(** [f'impl ResourceNormalizer for {normalizer_name}'] *)
Definition impl_header (normalizer_name : text) : text :=
  str "impl ResourceNormalizer for " ++ normalizer_name.

Definition async_header (normalizer_name : text) : text :=
  str "#[async_trait]" ++ nl ++ str "impl AsyncResourceNormalizer for " ++ normalizer_name.

Definition async_signature : text :=
  str "async fn normalize(" ++ nl
  ++ str "        &self," ++ nl
  ++ str "        raw_response: serde_json::Value," ++ nl
  ++ str "        account: &str," ++ nl
  ++ str "        region: &str," ++ nl
  ++ str "        query_timestamp: DateTime<Utc>," ++ nl
  ++ str "        aws_client: &AWSResourceClient," ++ nl
  ++ str "    )".

(** [sync_impl_comment]: two comment lines and an attribute line. *)
Definition sync_impl_comment : text :=
  str "// Temporary: Keep old sync implementation for compatibility during migration" ++ nl
  ++ str "// This will be removed once all normalizers are migrated and query_resources is updated" ++ nl
  ++ str "#[allow(deprecated)]" ++ nl.

(** ** Step 1: the import *)

Definition add_import (content : text) : text :=
  if contains import_line content then content
  else if contains anyhow_line content
  then replace_all anyhow_line (anyhow_line ++ nl ++ import_line) content
  else if contains chrono_line content
  then replace_all chrono_line (import_line ++ nl ++ chrono_line) content
  else content.

(** ** Step 2: the located implementations *)

(** What the loop reads of a match object: [group(1)] and [start()]. *)
Record impl_match : Type :=
  ImplMatch { normalizer_name : text; start_pos : nat }.

Definition locate (content : text) : list impl_match :=
  (fun m => ImplMatch (group1 content m) (r_start m)) <$> finditer impl_pattern content.

(** ** One iteration of the loop *)

(** How an iteration ends: the match is migrated, or one of the six
    [continue] statements is taken. *)
Inductive outcome : Type :=
  | Migrated
  | NoNormalize        (* WARNING: Could not find normalize() method *)
  | NoTags             (* WARNING: Could not find tags extraction *)
  | NoResourceId       (* WARNING: Could not find resource_id variable *)
  | NoResourceType     (* WARNING: Could not find resource_type *)
  | LostTrack          (* ERROR: Lost track of impl *)
  | NoImplEnd.         (* ERROR: Could not find end of impl *)

(** The pieces read from the block before anything is rewritten. *)
Record fragment : Type := Fragment {
  indent : text;
  tags_line_start : nat;
  tags_line_end : nat;
  resource_id_var : text;
  resource_type : text }.

Definition window : nat := 5000.

(** [content[start_pos:start_pos + 5000]] *)
Definition impl_section (content : text) (start : nat) : text :=
  slice start (start + window) content.

(** Lines 51-99: the four searches, in the order of the source. *)
Definition extract (content : text) (start : nat) : outcome + fragment :=
  let section := impl_section content start in
  match search normalize_pattern section with
  | None => inl NoNormalize
  | Some _ =>
      match search tags_pattern section with
      | None => inl NoTags
      | Some tags_match =>
          let ts := start + r_start tags_match in
          let te := start + r_stop tags_match in
          let before := slice start ts content in
          match finditer resource_id_pattern before with
          | [] => inl NoResourceId
          | id_match :: _ =>
              match search resource_type_pattern section with
              | None => inl NoResourceType
              | Some type_match =>
                  inr (Fragment (group1 section tags_match) ts te
                         (group1 before id_match) (group1 section type_match))
              end
          end
      end
  end.

(** Line 112: the tag extraction statement gives way to the fetch. *)
Definition rewrite_tags (content : text) (f : fragment) : text :=
  take (tags_line_start f) content
  ++ async_tags_code (indent f) (resource_type f) (resource_id_var f)
  ++ drop (tags_line_end f) content.

(** Lines 136-148: count braces from the insertion point; the offset just
    past the brace that brings the count back to zero, relative to the
    scanned text. *)
Fixpoint scan_braces (s : text) (i : nat) (brace_count : Z) (found_start : bool)
    : option nat :=
  match s with
  | [] => None
  | c :: s' =>
      if is_open_brace c then scan_braces s' (S i) (brace_count + 1)%Z true
      else if is_close_brace c then
        let brace_count := (brace_count - 1)%Z in
        if found_start && (brace_count =? 0)%Z then Some (i + 1)
        else scan_braces s' (S i) brace_count found_start
      else scan_braces s' (S i) brace_count found_start
  end.

Definition find_impl_end (content : text) (impl_insertion_point : nat) : option nat :=
  (fun i => impl_insertion_point + i)
    <$> scan_braces (drop impl_insertion_point content) 0 0%Z false.

(** Lines 157-172: the asynchronous copy of the block. *)
Definition make_async_impl (name original_impl : text) : text :=
  re_sub signature_pattern async_signature
    (replace_first (impl_header name) (async_header name) original_impl).

(** The retained block: the fetch goes back to local extraction. *)
Definition make_sync_impl (f : fragment) (original_impl : text) : text :=
  replace_all (async_tags_code (indent f) (resource_type f) (resource_id_var f))
    (fallback_code (indent f)) original_impl.

(** Lines 181-183: [modified_impl]. *)
Definition compose (name : text) (f : fragment) (original_impl : text) : text :=
  make_async_impl name original_impl ++ nl ++ nl
  ++ sync_impl_comment ++ make_sync_impl f original_impl.

(** Lines 47-185 for one match.  ([async_impl_code] and
    [updated_impl_section] are assigned in the source and never read; they
    are left out.) *)
Definition process_match (content : text) (m : impl_match) : text * outcome :=
  match extract content (start_pos m) with
  | inl skip => (content, skip)
  | inr f =>
      let content := rewrite_tags content f in
      match find (impl_header (normalizer_name m)) content with
      | None => (content, LostTrack)
      | Some impl_insertion_point =>
          match find_impl_end content impl_insertion_point with
          | None => (content, NoImplEnd)
          | Some impl_end =>
              let original_impl := slice impl_insertion_point impl_end content in
              (take impl_insertion_point content
               ++ compose (normalizer_name m) f original_impl
               ++ drop impl_end content, Migrated)
          end
      end
  end.

(** The loop over [reversed(matches)]: the buffer and, per iteration, how it
    ended. *)
Fixpoint process_all (content : text) (ms : list impl_match)
    : text * list (impl_match * outcome) :=
  match ms with
  | [] => (content, [])
  | m :: ms' =>
      let '(content', o) := process_match content m in
      let '(final, os) := process_all content' ms' in
      (final, (m, o) :: os)
  end.

(** ** What the script prints *)

Inductive msg : Type :=
  | MProcessing (file_path : string)
  | MNoImpl
  | MFound (n : nat)
  | MWarnNormalize (name : text)
  | MWarnTags (name : text)
  | MWarnResourceId (name : text)
  | MWarnResourceType (name : text)
  | MErrLostTrack (name : text)
  | MErrImplEnd (name : text)
  | MMigrated (n : nat)
  | MNoChanges
  | MUsage
  | MFileNotFound (file_path : string)
  | MSummary (migrated_count : nat).

(** U+2713 in UTF-8. *)
Definition check_mark : text := ["226"; "156"; "147"]%char.

Definition decimal (n : nat) : text := str (pretty n).

(** The printed line of each message (without the newline [print] adds). *)
Definition render (m : msg) : text :=
  match m with
  | MProcessing p => str "Processing: " ++ str p
  | MNoImpl => str "  No ResourceNormalizer implementations found"
  | MFound n => str "  Found " ++ decimal n ++ str " normalizer(s) to migrate"
  | MWarnNormalize name =>
      str "  WARNING: Could not find normalize() method for " ++ name
  | MWarnTags name => str "  WARNING: Could not find tags extraction for " ++ name
  | MWarnResourceId name =>
      str "  WARNING: Could not find resource_id variable for " ++ name
  | MWarnResourceType name => str "  WARNING: Could not find resource_type for " ++ name
  | MErrLostTrack name => str "  ERROR: Lost track of impl for " ++ name
  | MErrImplEnd name => str "  ERROR: Could not find end of impl for " ++ name
  | MMigrated n =>
      str "  " ++ check_mark ++ str " Migrated " ++ decimal n ++ str " normalizer(s)"
  | MNoChanges => str "  No changes needed"
  | MUsage => str "Usage: migrate_normalizers.py <file1.rs> [file2.rs ...]"
  | MFileNotFound p => str "ERROR: File not found: " ++ str p
  | MSummary n =>
      nl ++ check_mark ++ str " Successfully migrated " ++ decimal n ++ str " file(s)"
  end.

(** The line an iteration prints; a migrated match prints nothing. *)
Definition outcome_msg (mo : impl_match * outcome) : option msg :=
  let name := normalizer_name mo.1 in
  match mo.2 with
  | Migrated => None
  | NoNormalize => Some (MWarnNormalize name)
  | NoTags => Some (MWarnTags name)
  | NoResourceId => Some (MWarnResourceId name)
  | NoResourceType => Some (MWarnResourceType name)
  | LostTrack => Some (MErrLostTrack name)
  | NoImplEnd => Some (MErrImplEnd name)
  end.

(** ** [migrate_normalizer_file] *)

(** The run on one file: the value returned, the text handed to
    [write_text] if any, the lines printed, and how each iteration ended. *)
Record file_run : Type := FileRun {
  returned : bool;
  written : option text;
  printed : list msg;
  iterations : list (impl_match * outcome) }.

Definition migrate_text (file_path : string) (original_content : text) : file_run :=
  let content := add_import original_content in
  let matches := locate content in
  match matches with
  | [] => FileRun false None [MProcessing file_path; MNoImpl] []
  | _ =>
      let '(content, its) := process_all content (reverse matches) in
      let head := [MProcessing file_path; MFound (length matches)] ++ omap outcome_msg its in
      if bool_decide (content = original_content)
      then FileRun false None (head ++ [MNoChanges]) its
      else FileRun true (Some content) (head ++ [MMigrated (length matches)]) its
  end.

(** The files of the run: path to content.  A path is taken as the key as
    it is written on the command line. *)
Abbreviation files := (gmap string text).

(** The disk after the run on one file. *)
Definition write_back (file_path : string) (r : file_run) (fs : files) : files :=
  match written r with
  | Some content => <[file_path := content]> fs
  | None => fs
  end.

(** ** [main] *)

Record main_state : Type := MainState {
  disk : files;
  migrated_count : nat;
  output : list msg }.

(** The loop of [main] over [files_to_process]. *)
Fixpoint main_loop (files_to_process : list string) (st : main_state) : main_state :=
  match files_to_process with
  | [] => st
  | file_path :: rest =>
      match disk st !! file_path with
      | None =>
          main_loop rest
            (MainState (disk st) (migrated_count st)
               (output st ++ [MFileNotFound file_path]))
      | Some content =>
          let r := migrate_text file_path content in
          main_loop rest
            (MainState (write_back file_path r (disk st))
               (if returned r then S (migrated_count st) else migrated_count st)
               (output st ++ printed r))
      end
  end.

(** The process: its exit status (0 when [main] returns, 1 from
    [sys.exit(1)]), the disk it leaves and what it printed.  [argv] is
    [sys.argv], the script name first. *)
Record process : Type := Process {
  exit_status : nat;
  final_disk : files;
  stdout : list msg;
  files_migrated : nat }.

Definition main (argv : list string) (fs : files) : process :=
  match argv with
  | [] | [_] => Process 1 fs [MUsage] 0
  | _ :: files_to_process =>
      let st := main_loop files_to_process (MainState fs 0 []) in
      Process 0 (disk st) (output st ++ [MSummary (migrated_count st)]) (migrated_count st)
  end.

(** The buffer when the loop is over: the import step, then every located
    match from the last to the first. *)
Definition final_buffer (original_content : text) : text :=
  let content := add_import original_content in
  (process_all content (reverse (locate content))).1.

(** The four [continue] statements taken before anything is rewritten. *)
Definition structural (o : outcome) : bool :=
  match o with
  | NoNormalize | NoTags | NoResourceId | NoResourceType => true
  | _ => false
  end.

Definition is_migrated (o : outcome) : bool :=
  match o with Migrated => true | _ => false end.

(** Matches of a run that were migrated. *)
Definition migrated_blocks (r : file_run) : nat :=
  length (filter (fun mo => is_migrated mo.2 = true) (iterations r)).

Definition skipped_blocks (r : file_run) : nat :=
  length (filter (fun mo => is_migrated mo.2 = false) (iterations r)).

(** The opening literals of the signature and of the type accessor. *)
Definition normalize_open : text := str "fn normalize(".
Definition resource_type_open : text := str "fn resource_type(&self) -> &'static str {".

(** The pieces of the synthesized statement: the call, the opening of the
    recovery clause, the warning and the empty collection. *)
Definition fetch_call (resource_type resource_id_var : text) : text :=
  str ".fetch_tags_for_resource(" ++ dq ++ resource_type ++ dq
  ++ str ", &" ++ resource_id_var ++ str ", account, region)".

Definition recovery_open : text := str ".unwrap_or_else(|e| {".

Definition warn_call (resource_type resource_id_var : text) : text :=
  str "tracing::warn!(" ++ dq ++ str "Failed to fetch tags for " ++ resource_type
  ++ str " {}: {}" ++ dq ++ str ", " ++ resource_id_var ++ str ", e);".

Definition empty_tags : text := str "Vec::new()".

(** The comment that follows the statement in the retained block. *)
Definition fallback_comment : text := str " // Fallback to local extraction for sync path".

(** [sub] occurs in [s]. *)
Definition occurs (sub s : text) : Prop := exists a b, s = a ++ sub ++ b.

(** Number of lines of a text made of newline-terminated lines. *)
Definition count_lines (t : text) : nat :=
  length (filter (fun c => c = "010"%char) t).

(** The content of the file after a run on it. *)
Definition disk_after (file_path : string) (content : text) : text :=
  default content (written (migrate_text file_path content)).

(** Every iteration of a run ended in one of the four structural skips. *)
Definition all_structural (r : file_run) : bool :=
  forallb (fun mo => structural mo.2) (iterations r).

(** The per-file count line of a run, if it printed one. *)
Definition reported_count (r : file_run) : option nat :=
  match last (printed r) with
  | Some (MMigrated n) => Some n
  | _ => None
  end.

(** The last line of the process: the run summary. *)
Definition run_summary (out : process) : option msg := last (stdout out).

(** The paths of the command line that are files of the disk. *)
Definition existing (fs : files) (paths : list string) : list string :=
  filter (fun p => is_Some (fs !! p)) paths.

(** ** Sample files *)

Module Samples.

Definition unlines (ls : list text) : text := concat ((fun l => l ++ nl) <$> ls).

Definition signature_lines : list text :=
  [ str "    fn normalize(";
    str "        &self,";
    str "        raw_response: serde_json::Value,";
    str "        account: &str,";
    str "        region: &str,";
    str "        query_timestamp: DateTime<Utc>,";
    str "    ) -> Result<ResourceEntry> {" ].

Definition type_lines (tag : string) : list text :=
  [ str "    fn resource_type(&self) -> &'static str {";
    str "        " ++ dq ++ str tag ++ dq;
    str "    }" ].

(** A block of the expected shape. *)
Definition block (name id tag : string) : list text :=
  [ str "impl ResourceNormalizer for " ++ str name ++ str " {" ]
  ++ signature_lines
  ++ [ str "        let " ++ str id ++ str " = raw_response.id();";
       str "        let tags = extract_tags(&raw_response);";
       str "        Ok(entry(" ++ str id ++ str ", tags))";
       str "    }";
       str "" ]
  ++ type_lines tag
  ++ [ str "}" ].

Definition foo_block : list text := block "FooNormalizer" "foo_id" "AWS::Foo::Bar".

(** A block with no [resource_type] accessor. *)
Definition bar_block : list text :=
  [ str "impl ResourceNormalizer for BarNormalizer {" ]
  ++ signature_lines
  ++ [ str "        let bar_id = raw_response.id();";
       str "        let tags = extract_tags(&raw_response);";
       str "        Ok(entry(bar_id, tags))";
       str "    }";
       str "}" ].

(** A block with no tag extraction statement. *)
Definition baz_block : list text :=
  [ str "impl ResourceNormalizer for BazNormalizer {" ]
  ++ signature_lines
  ++ [ str "        let baz_id = raw_response.id();";
       str "        Ok(entry(baz_id, Vec::new()))";
       str "    }";
       str "" ]
  ++ type_lines "AWS::Baz::Qux"
  ++ [ str "}" ].

(** The expected shape, with an opening brace in a comment: the braces of
    the block never balance. *)
Definition open_block : list text :=
  [ str "impl ResourceNormalizer for FooNormalizer {" ]
  ++ signature_lines
  ++ [ str "        // the payload starts with {";
       str "        let foo_id = raw_response.id();";
       str "        let tags = extract_tags(&raw_response);";
       str "        Ok(entry(foo_id, tags))";
       str "    }";
       str "" ]
  ++ type_lines "AWS::Foo::Bar"
  ++ [ str "}" ].

Definition imports : list text := [ str "use anyhow::Result;"; str "" ].

(** One well-formed block. *)
Definition foo_file : text := unlines (imports ++ foo_block).

(** A well-formed block, then one without its type accessor. *)
Definition foo_bar_file : text := unlines (imports ++ foo_block ++ [str ""] ++ bar_block).

Definition open_file : text := unlines (imports ++ open_block).

(** The import anchor and a block that is skipped. *)
Definition baz_file : text := unlines (imports ++ baz_block).

(** The import anchor and no implementation at all. *)
Definition plain_file : text := unlines (imports ++ [ str "pub struct Foo;" ]).

(** A comment quotes the header of the last block ahead of an earlier one. *)
Definition quoted_file : text :=
  unlines ([ str "// impl ResourceNormalizer for FooNormalizer is at the end" ]
           ++ block "BarNormalizer" "bar_id" "AWS::Bar::Baz" ++ [str ""] ++ foo_block).

(** A block whose body opens with a comment of 5000 characters: the tag
    extraction statement lies beyond the window. *)
Definition far_head : text :=
  unlines ([ str "impl ResourceNormalizer for FooNormalizer {" ] ++ signature_lines
           ++ [ str "        let foo_id = raw_response.id();" ])
  ++ str "        // " ++ replicate 5000 "x"%char.

Definition far_rest : text :=
  unlines ([ str "";
             str "        let tags = extract_tags(&raw_response);";
             str "        Ok(entry(foo_id, tags))";
             str "    }";
             str "" ]
           ++ type_lines "AWS::Foo::Bar" ++ [ str "}" ]).

Definition far_file : text := far_head ++ far_rest.

(** A block without its type accessor, then a well-formed block. *)
Definition bar_foo_file : text := unlines (imports ++ bar_block ++ [str ""] ++ foo_block).

End Samples.

(** ** Vocabulary of the further properties *)

(** Number of characters of [s] in the class [p]. *)
Fixpoint count_chars (p : ascii -> bool) (s : text) : nat :=
  match s with
  | [] => 0
  | c :: s' => (if p c then 1 else 0) + count_chars p s'
  end.

(** The header of [m] stands at its recorded offset in [content]: the text
    [impl ResourceNormalizer for <name> {], the name made of word
    characters. *)
Definition header_at (content : text) (m : impl_match) : Prop :=
  starts_with (impl_header (normalizer_name m) ++ str " {")
    (drop (start_pos m) content) = true
  /\ forallb is_word (normalizer_name m) = true.

(** The offset just past the header of [m] and its opening brace. *)
Definition header_stop (m : impl_match) : nat :=
  start_pos m + length (impl_header (normalizer_name m)) + 2.

(** Braces opened less braces closed over [s], from a count of [bc]. *)
Definition balance (bc : Z) (s : text) : Z :=
  (bc + Z.of_nat (count_chars is_open_brace s)
   - Z.of_nat (count_chars is_close_brace s))%Z.

(** Where the brace scan stops after reading [s], having started with the
    count [bc] and the flag [found_start]: on a closing brace, an opening
    brace seen, the count back at zero. *)
Definition stops (bc : Z) (found_start : bool) (s : text) : Prop :=
  last s = Some "}"%char
  /\ (found_start = true \/ 0 < count_chars is_open_brace s)
  /\ balance bc s = 0%Z.

(** The matches of a list, as the loop meets them, lie apart: each header
    ends at or before the start of every match met earlier. *)
Fixpoint apart (ms : list impl_match) : Prop :=
  match ms with
  | [] => True
  | m :: ms' => Forall (fun m' => header_stop m' <= start_pos m) ms' /\ apart ms'
  end.

(** The buffers the loop hands to its iterations, one per match. *)
Fixpoint buffers_met (content : text) (ms : list impl_match) : list text :=
  match ms with
  | [] => []
  | m :: ms' => content :: buffers_met (process_match content m).1 ms'
  end.

(** The first line of the synthesized fetch, after the indentation. *)
Definition fetch_comment : text :=
  str "// Fetch tags asynchronously from AWS API with caching".

(** ** Tactics for whitespace runs *)

(** Peel one character of the whitespace run [w]; fails the goal when the
    character read is not whitespace. *)
Ltac peel_space H Hw w :=
  simpl in H; injection H as <- H;
  let Hc := fresh "Hc" in
  apply andb_prop in Hw as [Hc Hw]; vm_compute in Hc; try discriminate Hc; clear Hc.

(** A non-empty whitespace run followed by the tag-extraction statement
    cannot start where [H] reads something else. *)
Ltac space_run H Hw w :=
  destruct w as [|? w]; [done|]; peel_space H Hw w;
  (destruct w as [|? w];
   [ unfold tags_statement in H; simpl in H; discriminate H
   | peel_space H Hw w ]).

(** The same for a run followed by the comment line of the fetch. *)
Ltac comment_run H Hw w :=
  destruct w as [|? w]; [done|]; peel_space H Hw w;
  (destruct w as [|? w];
   [ simpl in H; discriminate H
   | peel_space H Hw w ]).

(** A literal of the script holds no slash. *)
Ltac no_slash_lit :=
  let H := fresh in
  intros H; repeat (apply elem_of_cons in H as [H|H]; [discriminate H|]);
  by apply elem_of_nil in H.

(** * Properties *)

(** ** Prefixes, [find] and [in] *)

Section TextFacts.

Implicit Types (p s t sub old new : text) (c : ascii).

Lemma strip_prefix_app p t : strip_prefix p (p ++ t) = Some t.
Proof.
  induction p as [|a p IH]; simpl; [done|].
  by rewrite Ascii.eqb_refl.
Qed.

Lemma strip_prefix_inv p s t : strip_prefix p s = Some t -> s = p ++ t.
Proof.
  revert s. induction p as [|a p IH]; intros s H; simpl in *.
  - by inversion H.
  - destruct s as [|b s]; [done|].
    destruct (Ascii.eqb a b) eqn:E; [|done].
    apply Ascii.eqb_eq in E. subst b. f_equal. by apply IH.
Qed.

Lemma starts_with_app p t : starts_with p (p ++ t) = true.
Proof. unfold starts_with. by rewrite strip_prefix_app. Qed.

Lemma starts_with_inv p s : starts_with p s = true -> exists t, s = p ++ t.
Proof.
  unfold starts_with. destruct (strip_prefix p s) as [t|] eqn:E; [|done].
  intros _. exists t. by apply strip_prefix_inv.
Qed.

Lemma find_from_shift sub s pos :
  find_from sub s pos = (fun i => pos + i) <$> find_from sub s 0.
Proof.
  revert pos. induction s as [|c s IH]; intros pos; simpl.
  - destruct (starts_with sub []); simpl; f_equal; lia.
  - destruct (starts_with sub (c :: s)); simpl; [f_equal; lia|].
    rewrite (IH (S pos)), (IH 1).
    destruct (find_from sub s 0); simpl; f_equal; lia.
Qed.

(** [find] returns an offset where [sub] starts, and the lowest one. *)
Lemma find_Some sub s i :
  find sub s = Some i ->
  i <= length s /\ starts_with sub (drop i s) = true
  /\ forall k, k < i -> starts_with sub (drop k s) = false.
Proof.
  unfold find. revert i. induction s as [|c s IH]; intros i; simpl.
  - destruct (starts_with sub []) eqn:E; [|done].
    intros [= <-]. split; [lia|]. split; [done|]. intros; lia.
  - destruct (starts_with sub (c :: s)) eqn:E.
    + intros [= <-]. split; [lia|]. split; [done|]. intros; lia.
    + rewrite find_from_shift. destruct (find_from sub s 0) as [j|] eqn:F; [|done].
      intros [= <-]. destruct (IH j eq_refl) as (Hl & Hs & Hm).
      split; [simpl; lia|]. split; [done|].
      intros [|k] Hk; [done|]. simpl. apply Hm. lia.
Qed.

Lemma find_None sub s k : find sub s = None -> starts_with sub (drop k s) = false.
Proof.
  unfold find. revert k. induction s as [|c s IH]; intros k; simpl.
  - destruct (starts_with sub []) eqn:E; [done|]. by rewrite drop_nil.
  - destruct (starts_with sub (c :: s)) eqn:E; [done|].
    rewrite find_from_shift. destruct (find_from sub s 0) eqn:F; [done|].
    intros _. destruct k as [|k]; [done|]. simpl. by apply IH.
Qed.

(** An occurrence at offset [k] bounds what [find] returns. *)
Lemma find_le sub s k :
  starts_with sub (drop k s) = true -> exists i, find sub s = Some i /\ i <= k.
Proof.
  intros H. destruct (find sub s) as [i|] eqn:F.
  - exists i. split; [done|]. destruct (find_Some _ _ _ F) as (_ & _ & Hm).
    destruct (decide (i <= k)) as [|Hn]; [done|].
    rewrite Hm in H; [done|lia].
  - by rewrite (find_None _ _ k F) in H.
Qed.

Lemma occurs_at sub s k : starts_with sub (drop k s) = true -> occurs sub s.
Proof.
  intros [t Ht]%starts_with_inv. exists (take k s), t.
  by rewrite <- Ht, take_drop.
Qed.

Lemma contains_occurs sub s : contains sub s = true <-> occurs sub s.
Proof.
  unfold contains. split.
  - destruct (find sub s) as [i|] eqn:F; [|done]. intros _.
    destruct (find_Some _ _ _ F) as (_ & H & _). by eapply occurs_at.
  - intros (a & b & ->).
    destruct (find_le sub (a ++ sub ++ b) (length a)) as (i & -> & _); [|done].
    rewrite drop_app_length. apply starts_with_app.
Qed.

Lemma occurs_trans s1 s2 s3 : occurs s1 s2 -> occurs s2 s3 -> occurs s1 s3.
Proof.
  intros (a & b & ->) (a' & b' & ->). exists (a' ++ a), (b ++ b').
  by rewrite <- !app_assoc.
Qed.

Lemma occurs_app_l sub s t : occurs sub s -> occurs sub (s ++ t).
Proof. intros (a & b & ->). exists a, (b ++ t). by rewrite <- !app_assoc. Qed.

Lemma occurs_app_r sub s t : occurs sub s -> occurs sub (t ++ s).
Proof. intros (a & b & ->). exists (t ++ a), b. by rewrite <- !app_assoc. Qed.

End TextFacts.

(** ** [replace] *)

Section ReplaceFacts.

Implicit Types (s t old new : text) (c : ascii).

Lemma replace_skip_drop old new s k :
  k <= length s -> replace_skip old new s k = replace_skip old new (drop k s) 0.
Proof.
  revert k. induction s as [|c s IH]; intros k Hk.
  - by rewrite drop_nil.
  - destruct k as [|k]; [done|]. simpl in *. apply IH. lia.
Qed.

(** At an occurrence the replacement is written and the scan resumes after
    the occurrence. *)
Lemma replace_skip_hit old new t :
  old <> [] ->
  replace_skip old new (old ++ t) 0 = new ++ replace_skip old new t 0.
Proof.
  intros Hne. destruct old as [|a old]; [done|].
  change ((a :: old) ++ t) with (a :: (old ++ t)).
  cbn [replace_skip]. change (a :: old ++ t) with ((a :: old) ++ t).
  rewrite starts_with_app. f_equal.
  rewrite replace_skip_drop by (rewrite length_app; simpl; lia).
  simpl. rewrite Nat.sub_0_r. by rewrite drop_app_length.
Qed.

Lemma replace_skip_miss old new c s :
  starts_with old (c :: s) = false ->
  replace_skip old new (c :: s) 0 = c :: replace_skip old new s 0.
Proof. intros H. cbn [replace_skip]. by rewrite H. Qed.

(** The text up to the first occurrence is kept. *)
Lemma replace_skip_first old new s i :
  old <> [] -> find old s = Some i ->
  replace_skip old new s 0
  = take i s ++ new ++ replace_skip old new (drop (i + length old) s) 0.
Proof.
  intros Hne F. destruct (find_Some _ _ _ F) as (Hl & Hs & Hm). clear F.
  revert i Hl Hs Hm. induction s as [|c s IH]; intros i Hl Hs Hm.
  - simpl in Hl. assert (i = 0) as -> by lia. simpl in Hs.
    apply starts_with_inv in Hs as [t Ht]. by destruct old.
  - destruct i as [|i].
    + simpl in Hs. apply starts_with_inv in Hs as [t Ht]. rewrite Ht.
      rewrite replace_skip_hit by done. simpl. by rewrite drop_app_length.
    + rewrite replace_skip_miss by (apply (Hm 0); lia).
      simpl. f_equal. apply IH; [simpl in Hl; lia|done|].
      intros k Hk. apply (Hm (S k)). lia.
Qed.

Lemma replace_skip_absent old new s :
  find old s = None -> replace_skip old new s 0 = s.
Proof.
  intros F. assert (forall k, starts_with old (drop k s) = false) as H
    by (intros k; by apply find_None).
  clear F. induction s as [|c s IH]; [done|].
  rewrite replace_skip_miss by apply (H 0). f_equal.
  apply IH. intros k. apply (H (S k)).
Qed.

Lemma replace_all_first old new s i :
  old <> [] -> find old s = Some i ->
  replace_all old new s
  = take i s ++ new ++ replace_all old new (drop (i + length old) s).
Proof.
  intros Hne F. unfold replace_all. destruct old; [done|].
  by apply replace_skip_first.
Qed.

Lemma replace_all_absent old new s :
  contains old s = false -> replace_all old new s = s.
Proof.
  unfold contains. destruct (find old s) eqn:F; [done|]. intros _.
  unfold replace_all. destruct old as [|a old].
  - unfold find in F. destruct s; simpl in F; done.
  - by apply replace_skip_absent.
Qed.

(** Where [old] occurs, the result holds the first occurrence's context
    with [new] in its place. *)
Lemma replace_all_occurs old new s :
  old <> [] -> contains old s = true ->
  exists a b, s = a ++ old ++ b /\ contains old a = false
              /\ replace_all old new s = a ++ new ++ replace_all old new b.
Proof.
  intros Hne. unfold contains. destruct (find old s) as [i|] eqn:F; [|done].
  intros _. destruct (find_Some _ _ _ F) as (Hl & Hs & Hm).
  apply starts_with_inv in Hs as [t Ht].
  exists (take i s), t. split; [by rewrite <- Ht, take_drop|]. split.
  - destruct (contains old (take i s)) eqn:C; [|done].
    apply contains_occurs in C as (a & b & Ha).
    assert (k_lt : length a + length old <= i).
    { apply (f_equal length) in Ha. rewrite !length_app in Ha.
      rewrite length_take in Ha. lia. }
    assert (length a < i) by (destruct old; [done|simpl in k_lt; lia]).
    rewrite <- (take_drop i s) in Hm.
    specialize (Hm (length a) ltac:(lia)).
    rewrite Ha in Hm. rewrite <- !app_assoc in Hm.
    rewrite drop_app_length in Hm. rewrite starts_with_app in Hm. done.
  - rewrite (replace_all_first old new s i) by done. do 2 f_equal.
    rewrite <- drop_drop, Ht. by rewrite drop_app_length.
Qed.

End ReplaceFacts.

(** ** Step 1 *)

Lemma import_in_after_anyhow : occurs import_line (anyhow_line ++ nl ++ import_line).
Proof. exists (anyhow_line ++ nl), []. by rewrite <- !app_assoc, app_nil_r. Qed.

Lemma import_in_before_chrono : occurs import_line (import_line ++ nl ++ chrono_line).
Proof. by exists [], (nl ++ chrono_line). Qed.

(** Once the import is in the buffer, step 1 leaves the buffer alone. *)
Lemma add_import_present content :
  contains import_line content = true -> add_import content = content.
Proof. intros H. unfold add_import. by rewrite H. Qed.

Lemma add_import_changed content :
  add_import content <> content -> contains import_line (add_import content) = true.
Proof.
  unfold add_import. intros Hne.
  destruct (contains import_line content) eqn:Hi; [done|].
  destruct (contains anyhow_line content) eqn:Ha.
  - destruct (replace_all_occurs anyhow_line (anyhow_line ++ nl ++ import_line) content)
      as (a & b & _ & _ & ->); [done|done|].
    apply contains_occurs. apply occurs_app_r, occurs_app_l, import_in_after_anyhow.
  - destruct (contains chrono_line content) eqn:Hc; [|done].
    destruct (replace_all_occurs chrono_line (import_line ++ nl ++ chrono_line) content)
      as (a & b & _ & _ & ->); [done|done|].
    apply contains_occurs. apply occurs_app_r, occurs_app_l, import_in_before_chrono.
Qed.

Lemma add_import_idem content : add_import (add_import content) = add_import content.
Proof.
  destruct (decide (add_import content = content)) as [E|Hne].
  - by rewrite !E.
  - by apply add_import_present, add_import_changed.
Qed.

(** ** The matcher *)

Section MatcherFacts.

Implicit Types (r : regex) (s t w l : text) (p : ascii -> bool) (res : mres).

(** What a greedy repetition hands to the rest of the pattern: it has
    consumed a run of characters of the class. *)
Lemma star_sound p (k : text -> nat -> option mres) s pos res :
  star p k s pos = Some res ->
  exists w t, s = w ++ t /\ forallb p w = true /\ k t (pos + length w) = Some res.
Proof.
  revert pos. induction s as [|c s IH]; intros pos H; simpl in H.
  - exists [], []. by rewrite Nat.add_0_r.
  - destruct (p c) eqn:Hp.
    + destruct (star p k s (S pos)) as [res'|] eqn:E.
      * inversion H; subst res'. destruct (IH _ E) as (w & t & -> & Hw & Hk).
        exists (c :: w), t. simpl. rewrite Hp, Hw.
        by replace (pos + S (length w)) with (S pos + length w) by lia.
      * exists [], (c :: s). by rewrite Nat.add_0_r.
    + exists [], (c :: s). by rewrite Nat.add_0_r.
Qed.

Lemma mtch_lit l r gs ge s pos res :
  mtch (Lit l :: r) gs ge s pos = Some res ->
  exists t, s = l ++ t /\ mtch r gs ge t (pos + length l) = Some res.
Proof.
  simpl. destruct (strip_prefix l s) as [t|] eqn:E; [|done].
  intros H. exists t. split; [by apply strip_prefix_inv|done].
Qed.

Lemma mtch_star p r gs ge s pos res :
  mtch (Star p :: r) gs ge s pos = Some res ->
  exists w t, s = w ++ t /\ forallb p w = true
              /\ mtch r gs ge t (pos + length w) = Some res.
Proof. simpl. apply star_sound. Qed.

Lemma mtch_plus p r gs ge s pos res :
  mtch (Plus p :: r) gs ge s pos = Some res ->
  exists w t, s = w ++ t /\ w <> [] /\ forallb p w = true
              /\ mtch r gs ge t (pos + length w) = Some res.
Proof.
  simpl. destruct s as [|c s]; [done|]. destruct (p c) eqn:Hp; [|done].
  intros (w & t & -> & Hw & Hk)%star_sound.
  exists (c :: w), t. simpl. rewrite Hp, Hw. repeat split; [done|].
  by replace (pos + S (length w)) with (S pos + length w) by lia.
Qed.

Lemma mtch_gopen r gs ge s pos res :
  mtch (GOpen :: r) gs ge s pos = Some res -> mtch r pos ge s pos = Some res.
Proof. done. Qed.

Lemma mtch_gclose r gs ge s pos res :
  mtch (GClose :: r) gs ge s pos = Some res -> mtch r gs pos s pos = Some res.
Proof. done. Qed.

Lemma mtch_nil gs ge s pos res :
  mtch [] gs ge s pos = Some res -> res = MRes pos gs ge.
Proof. by intros [= <-]. Qed.

(** [re.search] returns a match of the pattern at the offset it reports. *)
Lemma search_from_sound r s pos m :
  search_from r s pos = Some m ->
  exists j, r_start m = pos + j /\ j <= length s
            /\ match_at r (drop j s) (pos + j) = Some (r_res m).
Proof.
  revert pos. induction s as [|c s IH]; intros pos; simpl.
  - destruct (match_at r [] pos) as [res|] eqn:E; [|done].
    intros [= <-]. exists 0. simpl. by rewrite Nat.add_0_r.
  - destruct (match_at r (c :: s) pos) as [res|] eqn:E.
    + intros [= <-]. exists 0. simpl. rewrite Nat.add_0_r. split; [done|]. split; [lia|done].
    + intros (j & Hj & Hl & Hm)%IH. exists (S j). simpl.
      replace (pos + S j) with (S pos + j) by lia. split; [done|]. split; [lia|done].
Qed.

Lemma search_sound r s m :
  search r s = Some m ->
  r_start m <= length s /\ match_at r (drop (r_start m) s) (r_start m) = Some (r_res m).
Proof.
  intros (j & Hj & Hl & Hm)%search_from_sound. simpl in *. subst j. done.
Qed.

(** The first element of [finditer] is what [search] finds. *)
Lemma finditer_from_head r s pos :
  match_at r [] (pos + length s) = None ->
  head (finditer_from r s pos 0) = search_from r s pos.
Proof.
  revert pos. induction s as [|c s IH]; intros pos Hnil; simpl.
  - rewrite Nat.add_0_r in Hnil. by rewrite Hnil.
  - destruct (match_at r (c :: s) pos); [done|].
    apply IH. by replace (S pos + length s) with (pos + length (c :: s)) by (simpl; lia).
Qed.

End MatcherFacts.

(** ** What a match of each pattern has read *)

Lemma match_normalize s pos res :
  match_at normalize_pattern s pos = Some res -> starts_with normalize_open s = true.
Proof.
  unfold match_at, normalize_pattern, normalize_params.
  intros (t & -> & _)%mtch_lit. apply starts_with_app.
Qed.

Lemma match_tags s pos res :
  match_at tags_pattern s pos = Some res ->
  exists w t, s = w ++ tags_statement ++ t /\ w <> [] /\ forallb is_space w = true
              /\ res = MRes (pos + length w + length tags_statement) pos (pos + length w).
Proof.
  unfold match_at, tags_pattern.
  intros (w & t & -> & Hne & Hw & H)%mtch_gopen%mtch_plus.
  apply mtch_gclose, mtch_lit in H as (t' & -> & ->%mtch_nil).
  by exists w, t'.
Qed.

Lemma match_resource_id s pos res :
  match_at resource_id_pattern s pos = Some res ->
  exists w t, s = str "let " ++ w ++ str " = raw_response" ++ t
              /\ w <> [] /\ forallb is_word w = true
              /\ g_start res = pos + 4 /\ g_stop res = pos + 4 + length w.
Proof.
  unfold match_at, resource_id_pattern.
  intros (t0 & -> & H)%mtch_lit.
  apply mtch_gopen, mtch_plus in H as (w & t & -> & Hne & Hw & H).
  apply mtch_gclose, mtch_lit in H as (t' & -> & ->%mtch_nil).
  exists w, t'. simpl. repeat split; done.
Qed.

Lemma match_resource_type s pos res :
  match_at resource_type_pattern s pos = Some res ->
  exists ws w t, s = resource_type_open ++ ws ++ dq ++ w ++ dq ++ t
              /\ forallb is_space ws = true /\ w <> [] /\ forallb not_dq w = true
              /\ g_start res = pos + length resource_type_open + length ws + 1
              /\ g_stop res = pos + length resource_type_open + length ws + 1 + length w.
Proof.
  unfold match_at, resource_type_pattern.
  intros (t0 & -> & H)%mtch_lit.
  apply mtch_star in H as (ws & t1 & -> & Hws & H).
  apply mtch_lit in H as (t2 & -> & H).
  apply mtch_gopen, mtch_plus in H as (w & t & -> & Hne & Hw & H).
  apply mtch_gclose, mtch_lit in H as (t' & -> & ->%mtch_nil).
  exists ws, w, t'. simpl. repeat split; done.
Qed.

(** ** Slices and the window *)

Section SliceFacts.

Implicit Types (s t a head rest : text).

Lemma take_of_take_app s n a t : take n s = a ++ t -> take (length a) s = a.
Proof.
  intros H. assert (length a <= n) as Hle.
  { apply (f_equal length) in H. rewrite length_take, length_app in H. lia. }
  assert (take (length a) (take n s) = a) as Ha by (rewrite H; apply take_app_length).
  rewrite take_take in Ha. by replace (length a `min` n) with (length a) in Ha by lia.
Qed.

Lemma drop_take_comm s n j : drop j (take n s) = take (n - j) (drop j s).
Proof. apply skipn_firstn_comm. Qed.

Lemma slice_app_head head rest i j :
  j <= length head -> slice i j (head ++ rest) = slice i j head.
Proof.
  intros Hj. unfold slice. destruct (decide (i <= length head)) as [Hi|Hi].
  - rewrite drop_app_le by done. apply take_app_le. rewrite length_drop. lia.
  - replace (j - i) with 0 by lia. done.
Qed.

Lemma impl_section_full head start :
  length head = start + window -> impl_section head start = drop start head.
Proof.
  intros H. unfold impl_section, slice. apply take_ge. rewrite length_drop. lia.
Qed.

Lemma impl_section_app head rest start :
  length head = start + window -> impl_section (head ++ rest) start = drop start head.
Proof.
  intros H. unfold impl_section. rewrite slice_app_head by lia.
  by apply impl_section_full.
Qed.

Lemma impl_section_length content start : length (impl_section content start) <= window.
Proof. unfold impl_section, slice. rewrite length_take. lia. Qed.

(** A text read at offset [j] of the window is read at offset [start + j] of
    the buffer. *)
Lemma window_read content start j a t :
  drop j (impl_section content start) = a ++ t ->
  slice (start + j) (start + j + length a) content = a.
Proof.
  unfold impl_section, slice. rewrite drop_take_comm, drop_drop.
  intros H%take_of_take_app.
  by replace (start + j + length a - (start + j)) with (length a) by lia.
Qed.

End SliceFacts.

(** ** What [extract] returns *)

Lemma search_tags_read section m :
  search tags_pattern section = Some m ->
  exists t, drop (r_start m) section = (group1 section m ++ tags_statement) ++ t
            /\ group1 section m <> [] /\ forallb is_space (group1 section m) = true
            /\ r_stop m = r_start m + length (group1 section m ++ tags_statement)
            /\ r_stop m <= length section.
Proof.
  intros [Hl H]%search_sound. apply match_tags in H as (w & t & Hs & Hne & Hw & Hr).
  assert (group1 section m = w) as ->.
  { unfold group1, slice. rewrite Hr. cbn [g_start g_stop].
    rewrite Hs. replace (r_start m + length w - r_start m) with (length w) by lia.
    apply take_app_length. }
  exists t. rewrite <- app_assoc. repeat split; try done.
  - unfold r_stop. rewrite Hr. cbn [m_stop]. rewrite length_app. lia.
  - unfold r_stop. rewrite Hr. cbn [m_stop].
    apply (f_equal length) in Hs. rewrite length_drop, !length_app in Hs. lia.
Qed.

Lemma first_resource_id_read before m ms :
  finditer resource_id_pattern before = m :: ms ->
  group1 before m <> [] /\ forallb is_word (group1 before m) = true
  /\ occurs (str "let " ++ group1 before m ++ str " = raw_response") before.
Proof.
  intros H. assert (search resource_id_pattern before = Some m) as Hs.
  { unfold search, finditer in *. rewrite <- finditer_from_head by done. by rewrite H. }
  apply search_sound in Hs as [Hl Hm].
  apply match_resource_id in Hm as (w & t & Hd & Hne & Hw & Hgs & Hge).
  assert (group1 before m = w) as ->.
  { unfold group1, slice. rewrite Hgs, Hge.
    replace (r_start m + 4 + length w - (r_start m + 4)) with (length w) by lia.
    rewrite <- drop_drop, Hd. simpl. apply take_app_length. }
  repeat split; try done.
  exists (take (r_start m) before), t.
  rewrite <- (take_drop (r_start m) before) at 1. rewrite Hd. by rewrite <- !app_assoc.
Qed.

Lemma search_resource_type_read section m :
  search resource_type_pattern section = Some m ->
  group1 section m <> [] /\ forallb not_dq (group1 section m) = true
  /\ exists ws, forallb is_space ws = true
       /\ occurs (resource_type_open ++ ws ++ dq ++ group1 section m ++ dq) section.
Proof.
  intros [Hl H]%search_sound.
  apply match_resource_type in H as (ws & w & t & Hd & Hws & Hne & Hw & Hgs & Hge).
  assert (group1 section m = w) as ->.
  { unfold group1, slice. rewrite Hgs, Hge.
    match goal with |- take ?n _ = _ => replace n with (length w) by lia end.
    replace (r_start m + length resource_type_open + length ws + 1)
      with (r_start m + (length resource_type_open + (length ws + 1))) by lia.
    rewrite <- !drop_drop, Hd, drop_app_length, drop_app_length. simpl.
    apply take_app_length. }
  repeat split; try done. exists ws. split; [done|].
  exists (take (r_start m) section), t.
  rewrite <- (take_drop (r_start m) section) at 1. rewrite Hd. by rewrite <- !app_assoc.
Qed.

(** The fragment of a block that passes the four searches. *)
Lemma extract_fragment content start f :
  extract content start = inr f ->
  let section := impl_section content start in
  indent f <> [] /\ forallb is_space (indent f) = true
  /\ start <= tags_line_start f /\ tags_line_end f <= start + window
  /\ tags_line_end f = tags_line_start f + length (indent f ++ tags_statement)
  /\ slice (tags_line_start f) (tags_line_end f) content = indent f ++ tags_statement
  /\ resource_id_var f <> [] /\ forallb is_word (resource_id_var f) = true
  /\ occurs (str "let " ++ resource_id_var f ++ str " = raw_response")
       (slice start (tags_line_start f) content)
  /\ resource_type f <> [] /\ forallb not_dq (resource_type f) = true
  /\ exists ws, forallb is_space ws = true
       /\ occurs (resource_type_open ++ ws ++ dq ++ resource_type f ++ dq) section.
Proof.
  unfold extract. intros H. set (section := impl_section content start) in *.
  destruct (search normalize_pattern section) as [nm|]; [|done].
  destruct (search tags_pattern section) as [tm|] eqn:Ht; [|done].
  destruct (finditer resource_id_pattern _) as [|idm ids] eqn:Hi; [done|].
  destruct (search resource_type_pattern section) as [ym|] eqn:Hy; [|done].
  inversion H; subst f; clear H. simpl.
  destruct (search_tags_read _ _ Ht) as (t & Hd & Hne & Hsp & Hstop & Hlen).
  destruct (first_resource_id_read _ _ _ Hi) as (Hine & Hiw & Hio).
  destruct (search_resource_type_read _ _ Hy) as (Hyne & Hyq & Hyo).
  pose proof (impl_section_length content start) as Hwin. fold section in Hwin.
  unfold r_stop in *.
  repeat split; try done; try lia.
  rewrite Hstop. replace (start + (r_start tm + length (group1 section tm ++ tags_statement)))
    with (start + r_start tm + length (group1 section tm ++ tags_statement)) by lia.
  by eapply window_read.
Qed.

(** ** The loop *)

(** The searches give up with one of the four warnings only. *)
Lemma extract_inl content start o : extract content start = inl o -> structural o = true.
Proof.
  unfold extract. destruct (search normalize_pattern _); [|by intros [= <-]].
  destruct (search tags_pattern _); [|by intros [= <-]].
  destruct (finditer resource_id_pattern _); [by intros [= <-]|].
  destruct (search resource_type_pattern _); [done|by intros [= <-]].
Qed.

(** A structural skip is taken before the buffer is touched. *)
Lemma process_match_skip content m content' o :
  process_match content m = (content', o) -> structural o = true -> content' = content.
Proof.
  unfold process_match. destruct (extract content (start_pos m)) as [skip|f].
  - by intros [= <- <-].
  - destruct (find _ _) as [ins|]; [|by intros [= <- <-]].
    destruct (find_impl_end _ _) as [stop|]; by intros [= <- <-].
Qed.

(** A migrated match: the fragment was read, the header was found again in
    the rewritten buffer, its braces balance, and the composed text takes
    the place of the block. *)
Lemma process_match_migrated content m content' :
  process_match content m = (content', Migrated) ->
  exists f ins stop,
    extract content (start_pos m) = inr f
    /\ find (impl_header (normalizer_name m)) (rewrite_tags content f) = Some ins
    /\ find_impl_end (rewrite_tags content f) ins = Some stop
    /\ content' = take ins (rewrite_tags content f)
         ++ compose (normalizer_name m) f (slice ins stop (rewrite_tags content f))
         ++ drop stop (rewrite_tags content f).
Proof.
  unfold process_match. destruct (extract content (start_pos m)) as [skip|f] eqn:E.
  - intros [= <- ->]. by apply extract_inl in E.
  - destruct (find _ _) as [ins|] eqn:F; [|done].
    destruct (find_impl_end _ _) as [stop|] eqn:S; [|done].
    intros [= <-]. by exists f, ins, stop.
Qed.

Lemma process_all_structural content ms final its :
  process_all content ms = (final, its) ->
  forallb (fun mo => structural mo.2) its = true -> final = content.
Proof.
  revert content final its. induction ms as [|m ms IH]; intros content final its; simpl.
  - by intros [= <- <-].
  - destruct (process_match content m) as [content' o] eqn:P.
    destruct (process_all content' ms) as [final' os] eqn:A.
    intros [= <- <-]. simpl. intros [Ho Hos]%andb_prop.
    apply (process_match_skip _ _ _ _ P) in Ho. subst content'. by eapply IH.
Qed.

(** The end of the scanned block lies past the insertion point. *)
Lemma find_impl_end_gt content ins stop :
  find_impl_end content ins = Some stop -> ins < stop.
Proof.
  unfold find_impl_end.
  assert (forall s i bc fs e, scan_braces s i bc fs = Some e -> i < e) as H.
  { induction s as [|c s IH]; intros i bc fs e; simpl; [done|].
    destruct (is_open_brace c).
    - intros ?%IH. lia.
    - destruct (is_close_brace c).
      + destruct (fs && (bc - 1 =? 0)%Z); [intros [= <-]; lia|intros ?%IH; lia].
      + intros ?%IH. lia. }
  destruct (scan_braces _ _ _ _) as [e|] eqn:E; [|done].
  intros [= <-]. apply H in E. lia.
Qed.

(** The retained block, when the rewritten statement lies inside the block
    and the synthesized statement occurs in the block only where it was
    put: the original block text with the comment after the tag extraction
    statement. *)
Lemma retained_block_text content start f ins stop :
  extract content start = inr f ->
  let T := async_tags_code (indent f) (resource_type f) (resource_id_var f) in
  let blk := slice ins stop (rewrite_tags content f) in
  ins <= tags_line_start f ->
  tags_line_start f + length T <= stop ->
  find T blk = Some (tags_line_start f - ins) ->
  contains T (drop (tags_line_start f - ins + length T) blk) = false ->
  exists P Q,
    slice ins (stop + length (indent f ++ tags_statement) - length T) content
    = P ++ indent f ++ tags_statement ++ Q
    /\ blk = P ++ T ++ Q
    /\ make_sync_impl f blk = P ++ indent f ++ tags_statement ++ fallback_comment ++ Q.
Proof.
  intros He T blk Hins Hstop Hfind Hrest.
  destruct (extract_fragment _ _ _ He)
    as (Hind & _ & _ & _ & Hte & Hspan & _).
  set (ts := tags_line_start f) in *. set (te := tags_line_end f) in *.
  remember (length (indent f ++ tags_statement)) as L eqn:HL.
  assert (0 < L) as HLpos by (subst L; rewrite length_app; simpl; lia).
  assert (ts + L <= length content) as Hlen.
  { apply (f_equal length) in Hspan. unfold slice in Hspan.
    rewrite length_take, length_drop, <- HL in Hspan. lia. }
  set (A := take ts content). set (D := drop te content).
  assert (length A = ts) as HA by (unfold A; rewrite length_take; lia).
  assert (content = A ++ (indent f ++ tags_statement) ++ D) as Hsplit.
  { rewrite <- Hspan. unfold slice, A, D.
    replace te with (ts + (te - ts)) at 2 by lia.
    by rewrite <- drop_drop, take_drop, take_drop. }
  set (P := drop ins A).
  assert (length P = ts - ins) as HP by (unfold P; rewrite length_drop; lia).
  set (Q := take (stop - ins - length P - length T) D).
  assert (blk = P ++ T ++ Q) as Hblk.
  { unfold blk, slice, rewrite_tags. fold ts te A D T.
    rewrite drop_app_le by lia. fold P.
    rewrite take_app_ge by lia. by rewrite take_app_ge by lia. }
  assert (drop (ts - ins + length T) blk = Q) as HQ.
  { rewrite Hblk, app_assoc. apply drop_app_length'. rewrite length_app. lia. }
  exists P, Q. split_and!; [|done|].
  - unfold slice. rewrite Hsplit at 1. rewrite drop_app_le by lia. fold P.
    rewrite take_app_ge by lia. rewrite take_app_ge by (rewrite <- HL; lia).
    rewrite <- app_assoc, <- HL. unfold Q. do 3 f_equal.
    apply (f_equal (fun n => take n D)). lia.
  - unfold make_sync_impl, fallback_code. fold T.
    assert (T <> []) as HT.
    { unfold T, async_tags_code. destruct (indent f); done. }
    rewrite (replace_all_first _ _ _ _ HT Hfind), HQ.
    rewrite replace_all_absent by (by rewrite <- HQ).
    rewrite Hblk, <- HP, take_app_length. by rewrite <- !app_assoc.
Qed.

(** ** The run on one file *)

Lemma migrate_text_no_match file_path content :
  locate (add_import content) = [] ->
  migrate_text file_path content = FileRun false None [MProcessing file_path; MNoImpl] [].
Proof. unfold migrate_text. by intros ->. Qed.

(** With a located match the run ends in the comparison of the final buffer
    with the original content. *)
Lemma migrate_text_matches file_path content :
  locate (add_import content) <> [] ->
  let ms := locate (add_import content) in
  let its := (process_all (add_import content) (reverse ms)).2 in
  let head := [MProcessing file_path; MFound (length ms)] ++ omap outcome_msg its in
  migrate_text file_path content =
    if bool_decide (final_buffer content = content)
    then FileRun false None (head ++ [MNoChanges]) its
    else FileRun true (Some (final_buffer content)) (head ++ [MMigrated (length ms)]) its.
Proof.
  intros Hne. unfold migrate_text, final_buffer.
  destruct (locate (add_import content)) as [|m ms] eqn:L; [done|].
  cbv zeta. destruct (process_all _ _) as [final its]. done.
Qed.

Lemma process_all_matches content ms : (process_all content ms).2.*1 = ms.
Proof.
  revert content. induction ms as [|m ms IH]; intros content; simpl; [done|].
  destruct (process_match content m) as [content' o].
  specialize (IH content'). destruct (process_all content' ms) as [final os].
  simpl in *. by f_equal.
Qed.

Lemma iterations_matches file_path content :
  (iterations (migrate_text file_path content)).*1 = reverse (locate (add_import content)).
Proof.
  destruct (decide (locate (add_import content) = [])) as [E|Hne].
  - rewrite migrate_text_no_match by done. by rewrite E.
  - rewrite migrate_text_matches by done. cbv zeta.
    case_bool_decide; apply process_all_matches.
Qed.

(** When every iteration is a structural skip the loop hands back the
    buffer of step 1. *)
Lemma final_buffer_structural file_path content :
  all_structural (migrate_text file_path content) = true ->
  final_buffer content = add_import content.
Proof.
  unfold all_structural. intros H.
  destruct (decide (locate (add_import content) = [])) as [E|Hne].
  - unfold final_buffer. by rewrite E.
  - rewrite migrate_text_matches in H by done. cbv zeta in H.
    unfold final_buffer.
    destruct (process_all (add_import content) (reverse (locate (add_import content))))
      as [final its] eqn:A.
    simpl in *. eapply process_all_structural; [done|]. by case_bool_decide.
Qed.

(** * The claims *)

(** ** C1: a second run *)

(** C1 as stated fails.  The first run on a file with one well-formed block
    keeps the tag extraction statement in the retained synchronous block
    (followed by a comment), so the second run locates that block, finds the
    statement and migrates the block again: the file changes a second time
    and is reported as migrated. *)
Lemma second_run_migrates_again :
  disk_after "a.rs" (disk_after "a.rs" Samples.foo_file)
    <> disk_after "a.rs" Samples.foo_file
  /\ returned (migrate_text "a.rs" (disk_after "a.rs" Samples.foo_file)) = true.
Proof.
  split.
  - intros H. apply (f_equal length) in H. vm_compute in H. discriminate.
  - vm_compute. reflexivity.
Qed.

(** C1, amended: when the first run rewrote no block (no match was located,
    or every located match was skipped for a structural mismatch), a second
    run on its output leaves the file byte-identical, writes nothing and
    reports the file unchanged. *)
Theorem second_run_unchanged_after_skips (file_path : string) (content : text) :
  all_structural (migrate_text file_path content) = true ->
  disk_after file_path (disk_after file_path content) = disk_after file_path content
  /\ written (migrate_text file_path (disk_after file_path content)) = None
  /\ returned (migrate_text file_path (disk_after file_path content)) = false.
Proof.
  intros H. pose proof (final_buffer_structural _ _ H) as Hfinal.
  assert (forall c, written (migrate_text file_path c) = None ->
            disk_after file_path c = c) as Hkeep.
  { intros c Hc. unfold disk_after. by rewrite Hc. }
  assert (written (migrate_text file_path (disk_after file_path content)) = None
          /\ returned (migrate_text file_path (disk_after file_path content)) = false)
    as [Hw Hr]; [|by rewrite Hkeep].
  destruct (decide (locate (add_import content) = [])) as [E|Hne].
  - pose proof (migrate_text_no_match file_path content E) as Hrun.
    rewrite Hkeep; by rewrite Hrun.
  - pose proof (migrate_text_matches file_path content Hne) as Hrun. cbv zeta in Hrun.
    case_bool_decide as Hcmp.
    + rewrite Hkeep; by rewrite Hrun.
    + unfold disk_after at 1 2. rewrite Hrun. simpl. rewrite Hfinal.
      assert (final_buffer (add_import content) = add_import content) as Hagain.
      { unfold final_buffer. rewrite add_import_idem. apply Hfinal. }
      rewrite migrate_text_matches by (by rewrite add_import_idem).
      cbv zeta. by rewrite bool_decide_eq_true_2.
Qed.

Lemma second_run_unchanged_after_skips_witness :
  disk_after "a.rs" (disk_after "a.rs" Samples.baz_file) = disk_after "a.rs" Samples.baz_file
  /\ written (migrate_text "a.rs" (disk_after "a.rs" Samples.baz_file)) = None
  /\ returned (migrate_text "a.rs" (disk_after "a.rs" Samples.baz_file)) = false.
Proof.
  apply (second_run_unchanged_after_skips "a.rs" Samples.baz_file).
  vm_compute. reflexivity.
Defined.

(** ** C2: skipped matches *)

(** C2 holds for the four structural skips and fails for unbalanced
    delimiters.  On a well-formed block whose braces never balance (an
    opening brace in a comment) the tag extraction statement is rewritten
    first and the brace count fails afterwards: the iteration ends with
    "Could not find end of impl", the block no longer holds the statement,
    and the half-rewritten buffer is written to the file. *)
Lemma unbalanced_block_is_rewritten :
  let content := add_import Samples.open_file in
  exists m, locate content = [m]
    /\ (process_match content m).2 = NoImplEnd
    /\ (process_match content m).1 <> content
    /\ contains tags_statement content = true
    /\ contains tags_statement (process_match content m).1 = false
    /\ written (migrate_text "a.rs" Samples.open_file) = Some (process_match content m).1.
Proof.
  eexists. split; [vm_compute; reflexivity|].
  split; [vm_compute; reflexivity|]. split.
  { intros H. apply (f_equal length) in H. vm_compute in H. discriminate. }
  repeat split; vm_compute; reflexivity.
Qed.

(** ** The loop of [main] *)

Section MainFacts.

Implicit Types (paths : list string) (st : main_state) (fs : files) (p q : string).

Lemma main_loop_app paths1 paths2 st :
  main_loop (paths1 ++ paths2) st = main_loop paths2 (main_loop paths1 st).
Proof.
  revert st. induction paths1 as [|p paths1 IH]; intros st; simpl; [done|].
  destruct (disk st !! p); apply IH.
Qed.

(** A run writes to the path it was given and creates no file. *)
Lemma write_back_exists p r fs q :
  is_Some (fs !! p) -> (is_Some (write_back p r fs !! q) <-> is_Some (fs !! q)).
Proof.
  intros Hp. unfold write_back. destruct (written r) as [c|]; [|done].
  rewrite lookup_insert_is_Some. split.
  - intros [<-|[_ ?]]; done.
  - intros Hq. destruct (decide (p = q)); [by left|by right].
Qed.

Lemma main_loop_exists paths st q :
  is_Some (disk (main_loop paths st) !! q) <-> is_Some (disk st !! q).
Proof.
  revert st. induction paths as [|p paths IH]; intros st; simpl; [done|].
  destruct (disk st !! p) as [c|] eqn:E; rewrite IH; simpl; [|done].
  apply write_back_exists. by rewrite E.
Qed.

Lemma main_loop_output paths st line :
  line ∈ output st -> line ∈ output (main_loop paths st).
Proof.
  revert st. induction paths as [|p paths IH]; intros st H; simpl; [done|].
  destruct (disk st !! p); apply IH; simpl; apply elem_of_app; by left.
Qed.

(** A listed path with no file gets its error line. *)
Lemma main_loop_missing paths st p :
  p ∈ paths -> disk st !! p = None -> MFileNotFound p ∈ output (main_loop paths st).
Proof.
  revert st. induction paths as [|q paths IH]; intros st Hin Hp; [by inversion Hin|].
  apply elem_of_cons in Hin as [<-|Hin]; simpl.
  - rewrite Hp. apply main_loop_output. simpl. apply elem_of_app. right.
    by apply list_elem_of_singleton.
  - destruct (disk st !! q) as [c|] eqn:E; apply IH; try done; simpl.
    destruct (disk st !! p) as [x|] eqn:Ex; [done|].
    apply eq_None_not_Some. rewrite write_back_exists by (by rewrite E).
    by rewrite Ex; intros [? ?].
Qed.

(** The disk and the count do not depend on what was printed so far. *)
Lemma main_loop_core paths st1 st2 :
  disk st1 = disk st2 -> migrated_count st1 = migrated_count st2 ->
  disk (main_loop paths st1) = disk (main_loop paths st2)
  /\ migrated_count (main_loop paths st1) = migrated_count (main_loop paths st2).
Proof.
  revert st1 st2. induction paths as [|p paths IH]; intros st1 st2 Hd Hc; simpl; [done|].
  rewrite Hd, Hc. destruct (disk st2 !! p); apply IH; simpl; by rewrite ?Hd.
Qed.

(** Missing paths leave no trace in the disk and in the count. *)
Lemma main_loop_existing paths st fs :
  (forall q, is_Some (fs !! q) <-> is_Some (disk st !! q)) ->
  disk (main_loop paths st) = disk (main_loop (existing fs paths) st)
  /\ migrated_count (main_loop paths st) = migrated_count (main_loop (existing fs paths) st).
Proof.
  revert st. induction paths as [|p paths IH]; intros st Hfs; [done|].
  unfold existing in *. simpl. destruct (disk st !! p) as [c|] eqn:E.
  - rewrite filter_cons_True by (apply Hfs; by rewrite E).
    simpl. rewrite E. apply IH. intros q. rewrite Hfs; simpl.
    symmetry. apply write_back_exists. by rewrite E.
  - rewrite filter_cons_False by (rewrite Hfs, E; by intros [? ?]).
    destruct (IH st Hfs) as [<- <-]. by apply main_loop_core.
Qed.

End MainFacts.

(** ** C3: what is reported *)

(** C3 as stated fails.  In a file with one well-formed block and one block
    without its type accessor, one match is migrated and one is skipped, yet
    the per-file line reads "Migrated 2 normalizer(s)": it prints the number
    of matches found.  The run summary of this partly migrated file is the
    same line as that of a fully migrated file. *)
Lemma report_counts_matches_found :
  let r := migrate_text "a.rs" Samples.foo_bar_file in
  migrated_blocks r = 1 /\ skipped_blocks r = 1 /\ reported_count r = Some 2
  /\ run_summary (main ["migrate_normalizers.py"; "a.rs"] {[ "a.rs" := Samples.foo_bar_file ]})
     = run_summary (main ["migrate_normalizers.py"; "a.rs"] {[ "a.rs" := Samples.foo_file ]}).
Proof. repeat split; vm_compute; reflexivity. Qed.

(** C3, amended: the per-file result is one flag and the run summary one
    number.  A file with no located match prints "No ResourceNormalizer
    implementations found" and returns false; every match that is not
    migrated prints a warning or error line naming its type; the run returns
    true exactly when a match was located and the final buffer differs from
    the original content, whether or not matches were skipped; and the
    summary counts the files whose run returned true. *)
Theorem run_reports_changed_flag (script file_path : string) (content : text)
    (fs : files) :
  fs !! file_path = Some content ->
  let r := migrate_text file_path content in
  (locate (add_import content) = [] ->
     printed r = [MProcessing file_path; MNoImpl] /\ returned r = false)
  /\ (forall m o, (m, o) ∈ iterations r -> o <> Migrated ->
        exists line, outcome_msg (m, o) = Some line /\ line ∈ printed r)
  /\ (returned r = true <->
        locate (add_import content) <> [] /\ final_buffer content <> content)
  /\ stdout (main [script; file_path] fs)
     = printed r ++ [MSummary (if returned r then 1 else 0)]
  /\ forall paths st,
       migrated_count (main_loop (paths ++ [file_path]) st)
       = migrated_count (main_loop paths st)
         + match disk (main_loop paths st) !! file_path with
           | Some c => if returned (migrate_text file_path c) then 1 else 0
           | None => 0
           end.
Proof.
  intros Hfs r. split; [|split; [|split; [|split]]].
  - intros E. subst r. by rewrite migrate_text_no_match.
  - intros m o Hin Ho.
    assert (exists line, outcome_msg (m, o) = Some line) as [line Hline]
      by (destruct o; simpl; eauto; done).
    exists line. split; [done|]. subst r.
    destruct (decide (locate (add_import content) = [])) as [E|Hne].
    + rewrite migrate_text_no_match in Hin by done. by inversion Hin.
    + rewrite migrate_text_matches in Hin |- * by done. cbv zeta in *.
      assert (line ∈ omap outcome_msg
                (process_all (add_import content)
                   (reverse (locate (add_import content)))).2) as Hl.
      { apply list_elem_of_omap. exists (m, o). split; [|done].
        by case_bool_decide. }
      case_bool_decide; simpl; rewrite !elem_of_cons, elem_of_app; tauto.
  - subst r. destruct (decide (locate (add_import content) = [])) as [E|Hne].
    + rewrite migrate_text_no_match by done. simpl. split; [done|]. by intros [? _].
    + rewrite migrate_text_matches by done. cbv zeta. case_bool_decide; simpl.
      * split; [done|]. by intros [_ ?].
      * done.
  - simpl. rewrite Hfs. fold r. simpl. by destruct (returned r).
  - intros paths st. rewrite main_loop_app. simpl.
    destruct (disk (main_loop paths st) !! file_path) as [c|]; simpl; [|lia].
    destruct (returned (migrate_text file_path c)); lia.
Qed.

Lemma run_reports_changed_flag_witness :
  exists line, outcome_msg (ImplMatch (str "BarNormalizer") 493, NoResourceType) = Some line
               /\ line ∈ printed (migrate_text "a.rs" Samples.foo_bar_file).
Proof.
  pose proof (run_reports_changed_flag "migrate_normalizers.py" "a.rs" Samples.foo_bar_file
                {[ "a.rs" := Samples.foo_bar_file ]}) as H.
  destruct H as (_ & H & _); [vm_compute; reflexivity|].
  apply H; [|done]. vm_compute. apply list_elem_of_here.
Defined.

(** ** C4: a missing file *)

(** C4 as stated fails in its last part.  With a listed path that is no
    file, [main] prints the error, goes on to the next path and returns:
    the exit status is 0.  Only the usage branch calls [sys.exit(1)]. *)
Lemma missing_file_exits_zero :
  let fs : files := {[ "a.rs" := Samples.foo_file ]} in
  fs !! "missing.rs" = None
  /\ exit_status (main ["migrate_normalizers.py"; "missing.rs"; "a.rs"] fs) = 0.
Proof. split; [vm_compute; reflexivity|reflexivity]. Qed.

(** C4, amended: when a listed path is no file, that path is reported with
    "ERROR: File not found", the disk and the migrated count come out as in
    a run over the existing paths alone (the remaining files are processed
    and the missing one is not counted), the summary states that count, and
    the process ends with exit status 0. *)
Theorem missing_file_reported_run_continues (script : string) (paths : list string)
    (fs : files) (p : string) :
  p ∈ paths -> fs !! p = None ->
  let out := main (script :: paths) fs in
  let rest := main_loop (existing fs paths) (MainState fs 0 []) in
  MFileNotFound p ∈ stdout out
  /\ final_disk out = disk rest
  /\ files_migrated out = migrated_count rest
  /\ run_summary out = Some (MSummary (migrated_count rest))
  /\ exit_status out = 0.
Proof.
  intros Hin Hp. destruct paths as [|q paths]; [by inversion Hin|].
  destruct (main_loop_existing (q :: paths) (MainState fs 0 []) fs) as [Hd Hc]; [done|].
  cbv zeta. unfold main, run_summary. cbn [stdout final_disk files_migrated exit_status].
  rewrite last_snoc, Hd, Hc. repeat split; try done.
  apply elem_of_app. left. by apply main_loop_missing.
Qed.

Lemma missing_file_reported_run_continues_witness :
  let fs : files := {[ "a.rs" := Samples.foo_file ]} in
  let out := main ["migrate_normalizers.py"; "missing.rs"; "a.rs"] fs in
  let rest := main_loop (existing fs ["missing.rs"; "a.rs"]) (MainState fs 0 []) in
  MFileNotFound "missing.rs" ∈ stdout out
  /\ final_disk out = disk rest
  /\ files_migrated out = migrated_count rest
  /\ run_summary out = Some (MSummary (migrated_count rest))
  /\ exit_status out = 0.
Proof.
  apply (missing_file_reported_run_continues "migrate_normalizers.py"
           ["missing.rs"; "a.rs"] {[ "a.rs" := Samples.foo_file ]} "missing.rs").
  - apply list_elem_of_here.
  - vm_compute. reflexivity.
Defined.

(** ** C8: writing back *)

(** C8 as stated fails for a file with no located match.  Step 1 puts the
    import into the buffer, so the buffer differs from the original content,
    yet the function returns at "No ResourceNormalizer implementations
    found" and never reaches the comparison: nothing is written. *)
Lemma changed_buffer_not_written :
  final_buffer Samples.plain_file <> Samples.plain_file
  /\ written (migrate_text "a.rs" Samples.plain_file) = None.
Proof.
  split; [|vm_compute; reflexivity].
  intros H. apply (f_equal length) in H. vm_compute in H. discriminate.
Qed.

(** C8, amended: for a file with at least one located match, the final
    buffer is compared to the original content and written to the path if
    and only if the two differ, the file being left as it is otherwise; a
    file with no located match is never written. *)
Theorem written_iff_changed (file_path : string) (content : text) (fs : files) :
  let r := migrate_text file_path content in
  (locate (add_import content) = [] -> write_back file_path r fs = fs)
  /\ (locate (add_import content) <> [] -> final_buffer content <> content ->
        write_back file_path r fs = <[file_path := final_buffer content]> fs)
  /\ (locate (add_import content) <> [] -> final_buffer content = content ->
        write_back file_path r fs = fs).
Proof.
  cbv zeta. unfold write_back. repeat split.
  - intros E. by rewrite migrate_text_no_match.
  - intros Hne Hch. rewrite migrate_text_matches by done. cbv zeta.
    by rewrite bool_decide_eq_false_2.
  - intros Hne Hsame. rewrite migrate_text_matches by done. cbv zeta.
    by rewrite bool_decide_eq_true_2.
Qed.

Lemma written_iff_changed_witness :
  write_back "a.rs" (migrate_text "a.rs" Samples.foo_file) ∅
  = <[ "a.rs" := final_buffer Samples.foo_file ]> ∅.
Proof.
  destruct (written_iff_changed "a.rs" Samples.foo_file ∅) as (_ & H & _).
  apply H.
  - vm_compute. discriminate.
  - intros E. apply (f_equal length) in E. vm_compute in E. discriminate.
Defined.

(** ** C9: the import *)

(** C9: in a file without [use async_trait::async_trait;], step 1 writes the
    import on the line after [use anyhow::Result;] where that occurs,
    otherwise on the line before [use chrono::{DateTime, Utc};] where that
    occurs, and leaves the buffer alone when neither occurs.  The blocks are
    located in the buffer that step 1 returns; so when every located match
    is skipped for a structural mismatch and step 1 changed the buffer, the
    file is written with the import insertion as its only change. *)
Theorem import_added_before_locating (file_path : string) (content : text) :
  contains import_line content = false ->
  (contains anyhow_line content = true ->
     exists a b, content = a ++ anyhow_line ++ b /\ contains anyhow_line a = false
       /\ add_import content
          = a ++ (anyhow_line ++ nl ++ import_line)
              ++ replace_all anyhow_line (anyhow_line ++ nl ++ import_line) b)
  /\ (contains anyhow_line content = false -> contains chrono_line content = true ->
     exists a b, content = a ++ chrono_line ++ b /\ contains chrono_line a = false
       /\ add_import content
          = a ++ (import_line ++ nl ++ chrono_line)
              ++ replace_all chrono_line (import_line ++ nl ++ chrono_line) b)
  /\ (contains anyhow_line content = false -> contains chrono_line content = false ->
     add_import content = content)
  /\ (iterations (migrate_text file_path content)).*1
     = reverse (locate (add_import content))
  /\ (locate (add_import content) <> [] ->
      all_structural (migrate_text file_path content) = true ->
      add_import content <> content ->
      written (migrate_text file_path content) = Some (add_import content)
      /\ returned (migrate_text file_path content) = true).
Proof.
  intros Hi. unfold add_import at 1 2 3. rewrite Hi. repeat split.
  - intros Ha. rewrite Ha. by apply replace_all_occurs.
  - intros Ha Hc. rewrite Ha, Hc. by apply replace_all_occurs.
  - intros Ha Hc. by rewrite Ha, Hc.
  - apply iterations_matches.
  - rewrite (migrate_text_matches file_path content) by done. cbv zeta.
    rewrite <- (final_buffer_structural file_path content) in * by done.
    by rewrite bool_decide_eq_false_2.
  - rewrite (migrate_text_matches file_path content) by done. cbv zeta.
    rewrite <- (final_buffer_structural file_path content) in * by done.
    by rewrite bool_decide_eq_false_2.
Qed.

Lemma import_added_before_locating_witness :
  written (migrate_text "a.rs" Samples.baz_file) = Some (add_import Samples.baz_file)
  /\ returned (migrate_text "a.rs" Samples.baz_file) = true.
Proof.
  destruct (import_added_before_locating "a.rs" Samples.baz_file) as (_ & _ & _ & _ & H).
  - vm_compute. reflexivity.
  - apply H.
    + vm_compute. discriminate.
    + vm_compute. reflexivity.
    + intros E. apply (f_equal length) in E. vm_compute in E. discriminate.
Defined.

(** ** C5: the replacement span *)

(** The text between the blank line and the retained block is fixed. *)
Lemma banner_is_sync_impl_comment name f blk banner :
  compose name f blk
  = make_async_impl name blk ++ nl ++ nl ++ banner ++ make_sync_impl f blk ->
  banner = sync_impl_comment.
Proof.
  unfold compose. intros Heq. do 3 apply app_inv_head in Heq.
  by apply app_inv_tail in Heq.
Qed.

Lemma sync_impl_comment_lines : count_lines sync_impl_comment = 3.
Proof. vm_compute. reflexivity. Qed.

(** C5 as stated fails in one detail: the banner between the blank line and
    the retained block is not two lines long.  [sync_impl_comment] is two
    comment lines and an [#[allow(deprecated)]] line, so no text of two
    lines fits between the asynchronous block with its blank line and the
    retained block. *)
Lemma deprecation_banner_not_two_lines :
  let content := add_import Samples.foo_file in
  exists m f ins stop,
    locate content = [m]
    /\ extract content (start_pos m) = inr f
    /\ find (impl_header (normalizer_name m)) (rewrite_tags content f) = Some ins
    /\ find_impl_end (rewrite_tags content f) ins = Some stop
    /\ let blk := slice ins stop (rewrite_tags content f) in
       (process_match content m).1
       = take ins (rewrite_tags content f) ++ compose (normalizer_name m) f blk
         ++ drop stop (rewrite_tags content f)
       /\ ~ exists banner,
            count_lines banner = 2
            /\ compose (normalizer_name m) f blk
               = make_async_impl (normalizer_name m) blk ++ nl ++ nl
                 ++ banner ++ make_sync_impl f blk.
Proof.
  do 4 eexists.
  split; [vm_compute; reflexivity|]. split; [vm_compute; reflexivity|].
  split; [vm_compute; reflexivity|]. split; [vm_compute; reflexivity|].
  split; [vm_compute; reflexivity|].
  intros (banner & Hlines & ->%banner_is_sync_impl_comment).
  by rewrite sync_impl_comment_lines in Hlines.
Qed.

(** C5, amended: for every migrated match the text spliced over the block
    is, in order, the asynchronous block, a blank line, a fixed banner of
    three lines (two comment lines and an [#[allow(deprecated)]] line), and
    the retained block: the block text with the synthesized fetch statement
    swapped for the tag extraction statement followed by an explanatory
    comment.  The asynchronous block starts at the block's offset and the
    retained block starts strictly after it.  When the rewritten statement
    lies inside the block and the synthesized statement occurs in the block
    only where it was put, the retained block is the original block text
    with the comment added after its tag extraction statement. *)
Theorem replacement_span_layout (content content' : text) (m : impl_match) :
  process_match content m = (content', Migrated) ->
  exists f ins stop,
    extract content (start_pos m) = inr f /\
    let buffer := rewrite_tags content f in
    let blk := slice ins stop buffer in
    let async_impl := make_async_impl (normalizer_name m) blk in
    let retained := make_sync_impl f blk in
    let retained_at := ins + length async_impl + 2 + length sync_impl_comment in
    let T := async_tags_code (indent f) (resource_type f) (resource_id_var f) in
    find (impl_header (normalizer_name m)) buffer = Some ins
    /\ find_impl_end buffer ins = Some stop
    /\ ins < stop
    /\ content' = take ins buffer
         ++ (async_impl ++ nl ++ nl ++ sync_impl_comment ++ retained)
         ++ drop stop buffer
    /\ sync_impl_comment
       = str "// Temporary: Keep old sync implementation for compatibility during migration"
         ++ nl
         ++ str "// This will be removed once all normalizers are migrated and query_resources is updated"
         ++ nl ++ str "#[allow(deprecated)]" ++ nl
    /\ count_lines sync_impl_comment = 3
    /\ retained = replace_all T (indent f ++ tags_statement ++ fallback_comment) blk
    /\ drop ins content'
       = async_impl ++ nl ++ nl ++ sync_impl_comment ++ retained ++ drop stop buffer
    /\ drop retained_at content' = retained ++ drop stop buffer
    /\ ins < retained_at
    /\ (ins <= tags_line_start f ->
        tags_line_start f + length T <= stop ->
        find T blk = Some (tags_line_start f - ins) ->
        contains T (drop (tags_line_start f - ins + length T) blk) = false ->
        exists P Q,
          slice ins (stop + length (indent f ++ tags_statement) - length T) content
          = P ++ indent f ++ tags_statement ++ Q
          /\ retained = P ++ indent f ++ tags_statement ++ fallback_comment ++ Q).
Proof.
  intros (f & ins & stop & He & Hf & Hs & ->)%process_match_migrated.
  exists f, ins, stop. split; [done|]. cbv zeta.
  destruct (find_Some _ _ _ Hf) as (Hins & _ & _).
  assert (length (take ins (rewrite_tags content f)) = ins) as Hlen
    by (rewrite length_take; lia).
  split_and!.
  - done.
  - done.
  - by eapply find_impl_end_gt.
  - done.
  - done.
  - apply sync_impl_comment_lines.
  - done.
  - rewrite drop_app_length' by done. unfold compose. by rewrite <- !app_assoc.
  - unfold compose.
    set (a := make_async_impl _ _). set (b := make_sync_impl _ _).
    rewrite !app_assoc. rewrite <- (app_assoc _ b).
    apply drop_app_length'. rewrite !length_app, Hlen. simpl. lia.
  - lia.
  - intros H1 H2 H3 H4.
    destruct (retained_block_text _ _ _ ins stop He H1 H2 H3 H4) as (P & Q & HP & _ & HQ).
    by exists P, Q.
Qed.

Lemma replacement_span_layout_witness :
  let content := add_import Samples.foo_file in
  let f := Fragment (nl ++ str "        ") 326 374 (str "foo_id") (str "AWS::Foo::Bar") in
  exists P Q,
    extract content 51 = inr f
    /\ slice 51 (811 + length (indent f ++ tags_statement)
                 - length (async_tags_code (indent f) (resource_type f) (resource_id_var f)))
         content
       = P ++ indent f ++ tags_statement ++ Q
    /\ make_sync_impl f (slice 51 811 (rewrite_tags content f))
       = P ++ indent f ++ tags_statement ++ fallback_comment ++ Q.
Proof.
  intros content f0.
  assert (process_match content (ImplMatch (str "FooNormalizer") 51)
          = ((process_match content (ImplMatch (str "FooNormalizer") 51)).1, Migrated))
    as Hrun by (vm_compute; reflexivity).
  destruct (replacement_span_layout _ _ _ Hrun)
    as (f & ins & stop & He & Hf & Hs & _ & _ & _ & _ & _ & _ & _ & _ & Hcond).
  assert (extract content 51 = inr f0) as He0 by (vm_compute; reflexivity).
  cbn [start_pos normalizer_name] in *.
  rewrite He0 in He. injection He as <-.
  assert (find (impl_header (str "FooNormalizer")) (rewrite_tags content f0) = Some 51)
    as Hf0 by (vm_compute; reflexivity).
  rewrite Hf0 in Hf. injection Hf as <-.
  assert (find_impl_end (rewrite_tags content f0) 51 = Some 811)
    as Hs0 by (vm_compute; reflexivity).
  rewrite Hs0 in Hs. injection Hs as <-.
  destruct Hcond as (P & Q & HP & HQ).
  - vm_compute. lia.
  - vm_compute. lia.
  - vm_compute. reflexivity.
  - vm_compute. reflexivity.
  - exists P, Q. exact (conj He0 (conj HP HQ)).
Defined.

(** ** C7: the order of processing *)

(** The matches of [finditer] start at strictly increasing offsets. *)
Lemma finditer_from_lower r s pos skip m :
  m ∈ finditer_from r s pos skip -> pos + skip <= r_start m.
Proof.
  revert pos skip. induction s as [|c s IH]; intros pos skip; simpl; [by inversion 1|].
  destruct skip as [|k].
  - destruct (match_at r (c :: s) pos) as [res|].
    + intros [->|H%IH]%elem_of_cons; simpl; lia.
    + intros H%IH. lia.
  - intros H%IH. lia.
Qed.

Lemma finditer_from_increasing r s pos skip i j mi mj :
  i < j ->
  finditer_from r s pos skip !! i = Some mi ->
  finditer_from r s pos skip !! j = Some mj ->
  r_start mi < r_start mj.
Proof.
  revert pos skip i j. induction s as [|c s IH]; intros pos skip i j Hij; simpl; [done|].
  destruct skip as [|k]; [|by apply IH].
  destruct (match_at r (c :: s) pos) as [res|]; [|by apply IH].
  destruct j as [|j]; [lia|]. destruct i as [|i]; simpl.
  - intros [= <-] Hj%list_elem_of_lookup_2%finditer_from_lower. simpl. lia.
  - apply IH. lia.
Qed.

(** The loop meets the located matches from the highest start offset down:
    of two matches, the one processed first starts later in the buffer. *)
Lemma locate_descending content i j mi mj :
  i < j ->
  reverse (locate content) !! i = Some mi ->
  reverse (locate content) !! j = Some mj ->
  start_pos mj < start_pos mi.
Proof.
  intros Hij (Hi & Hi')%reverse_lookup_Some (Hj & Hj')%reverse_lookup_Some.
  unfold locate in *. rewrite length_fmap in *.
  apply list_lookup_fmap_Some_1 in Hi as (ri & -> & Hi).
  apply list_lookup_fmap_Some_1 in Hj as (rj & -> & Hj).
  simpl. eapply finditer_from_increasing; [|exact Hj|exact Hi]. lia.
Qed.

(** C7 holds for the order and fails for what the order is meant to
    secure.  The block is spliced at the first occurrence of its header text
    in the whole buffer, not at the recorded offset of the match.  Here a
    comment quotes the header of the last block ahead of an earlier block:
    processing the last block rewrites the buffer from the comment on, and
    the recorded offset of the earlier match no longer points at its
    header. *)
Lemma splice_invalidates_earlier_offset :
  let content := add_import Samples.quoted_file in
  exists bar foo,
    locate content = [bar; foo]
    /\ start_pos bar < start_pos foo
    /\ starts_with (impl_header (normalizer_name bar)) (drop (start_pos bar) content) = true
    /\ (process_match content foo).2 = Migrated
    /\ starts_with (impl_header (normalizer_name bar))
         (drop (start_pos bar) (process_match content foo).1) = false
    /\ take (start_pos bar) (process_match content foo).1 <> take (start_pos bar) content.
Proof.
  do 2 eexists. split; [vm_compute; reflexivity|].
  split; [cbn; lia|]. split; [vm_compute; reflexivity|].
  split; [vm_compute; reflexivity|]. split; [vm_compute; reflexivity|].
  apply (bool_decide_eq_false_1 (_ = _)). vm_compute. reflexivity.
Qed.

(** ** C10: the window *)

Lemma extract_reads_window content start f :
  extract content start = inr f ->
  contains normalize_open (impl_section content start) = true
  /\ contains tags_statement (impl_section content start) = true
  /\ contains resource_type_open (impl_section content start) = true.
Proof.
  unfold extract. set (section := impl_section content start).
  destruct (search normalize_pattern section) as [nm|] eqn:Hn; [|done].
  destruct (search tags_pattern section) as [tm|] eqn:Ht; [|done].
  destruct (finditer resource_id_pattern _) as [|idm ids]; [done|].
  destruct (search resource_type_pattern section) as [ym|] eqn:Hy; [|done].
  intros _. split_and!; apply contains_occurs.
  - apply search_sound in Hn as [_ Hn]. apply match_normalize in Hn.
    by eapply occurs_at.
  - destruct (search_tags_read _ _ Ht) as (t & Hd & _).
    exists (take (r_start tm) section ++ group1 section tm), t.
    rewrite <- (take_drop (r_start tm) section) at 1. rewrite Hd.
    by rewrite <- !app_assoc.
  - destruct (search_resource_type_read _ _ Hy) as (_ & _ & ws & _ & Ho).
    eapply occurs_trans; [|exact Ho]. by exists [], (ws ++ dq ++ group1 section ym ++ dq).
Qed.

(** What lies past the window has no part in the searches. *)
Lemma extract_window head rest start :
  length head = start + window ->
  extract (head ++ rest) start = extract head start.
Proof.
  intros Hlen. unfold extract.
  rewrite impl_section_app, impl_section_full by done.
  destruct (search normalize_pattern _); [|done].
  destruct (search tags_pattern _) as [tm|] eqn:Ht; [|done].
  apply search_sound in Ht as [Hl _]. rewrite length_drop in Hl.
  by rewrite slice_app_head by lia.
Qed.

(** C10: the searches for the signature, the tag extraction statement and
    the type tag read the 5000 characters that start at the header and
    nothing else: whatever text [rest] follows the window, the fragment
    read is the one read from the window alone; and when the window lacks
    the opening of the signature, the tag extraction statement or the
    opening of the type accessor, the match is skipped for a structural
    mismatch and the buffer is left as it is, even if [rest] holds what is
    missing. *)
Theorem searches_confined_to_window (head rest : text) (m : impl_match) :
  length head = start_pos m + window ->
  contains normalize_open (drop (start_pos m) head) = false
  \/ contains tags_statement (drop (start_pos m) head) = false
  \/ contains resource_type_open (drop (start_pos m) head) = false ->
  impl_section (head ++ rest) (start_pos m) = drop (start_pos m) head
  /\ extract (head ++ rest) (start_pos m) = extract head (start_pos m)
  /\ exists o, structural o = true
       /\ process_match (head ++ rest) m = (head ++ rest, o).
Proof.
  intros Hlen Hlack. split; [by apply impl_section_app|].
  split; [by apply extract_window|].
  unfold process_match.
  destruct (extract (head ++ rest) (start_pos m)) as [o|f] eqn:E.
  - exists o. split; [by eapply extract_inl|done].
  - apply extract_reads_window in E as (Hn & Ht & Hy).
    rewrite impl_section_app in Hn, Ht, Hy by done.
    destruct Hlack as [H|[H|H]]; congruence.
Qed.

Lemma searches_confined_to_window_witness :
  contains tags_statement (drop 5000 Samples.far_file) = true
  /\ exists o, structural o = true
       /\ process_match (take 5000 Samples.far_file ++ drop 5000 Samples.far_file)
            (ImplMatch (str "FooNormalizer") 0)
          = (take 5000 Samples.far_file ++ drop 5000 Samples.far_file, o).
Proof.
  split; [vm_compute; reflexivity|].
  apply (searches_confined_to_window (take 5000 Samples.far_file)
           (drop 5000 Samples.far_file) (ImplMatch (str "FooNormalizer") 0)).
  - vm_compute. reflexivity.
  - right. left. vm_compute. reflexivity.
Defined.

(** * Further properties of the script *)

(** ** The locator *)

Lemma match_impl s pos res :
  match_at impl_pattern s pos = Some res ->
  exists w t, s = str "impl ResourceNormalizer for " ++ (w ++ str "Normalizer") ++ str " {" ++ t
    /\ w <> [] /\ forallb is_word w = true
    /\ g_start res = pos + 28
    /\ g_stop res = pos + 28 + length (w ++ str "Normalizer")
    /\ m_stop res = pos + 28 + length (w ++ str "Normalizer") + 2.
Proof.
  unfold match_at, impl_pattern.
  intros (t0 & -> & H)%mtch_lit.
  apply mtch_gopen, mtch_plus in H as (w & t1 & -> & Hne & Hw & H).
  apply mtch_lit in H as (t2 & -> & H).
  apply mtch_gclose, mtch_lit in H as (t3 & -> & ->%mtch_nil).
  exists w, t3. cbn [g_start g_stop m_stop]. rewrite length_app.
  change (length (str "impl ResourceNormalizer for ")) with 28.
  change (length (str " {")) with 2.
  rewrite <- !app_assoc. repeat split; try done; lia.
Qed.

(** Every element of [finditer] is a match of the pattern at its offset. *)
Lemma finditer_from_sound r s pos skip m :
  m ∈ finditer_from r s pos skip ->
  exists j, r_start m = pos + j /\ j < length s
            /\ match_at r (drop j s) (pos + j) = Some (r_res m).
Proof.
  revert pos skip. induction s as [|c s IH]; intros pos skip; simpl; [by inversion 1|].
  assert (forall k, m ∈ finditer_from r s (S pos) k ->
            exists j, r_start m = pos + j /\ j < S (length s)
                      /\ match_at r (drop j (c :: s)) (pos + j) = Some (r_res m)) as Hrec.
  { intros k (j & Hj & Hl & Hm)%IH. exists (S j). simpl.
    replace (pos + S j) with (S pos + j) by lia. split; [lia|]. split; [lia|done]. }
  destruct skip as [|k]; [|apply Hrec].
  destruct (match_at r (c :: s) pos) as [res|] eqn:E; [|apply Hrec].
  intros [->|H]%elem_of_cons; [|by eapply Hrec].
  exists 0. simpl. rewrite Nat.add_0_r. split; [done|]. split; [lia|done].
Qed.

(** A later element of [finditer] starts where an earlier one has stopped,
    or later. *)
Lemma finditer_from_apart r s pos skip i j mi mj :
  i < j ->
  finditer_from r s pos skip !! i = Some mi ->
  finditer_from r s pos skip !! j = Some mj ->
  r_stop mi <= r_start mj.
Proof.
  revert pos skip i j. induction s as [|c s IH]; intros pos skip i j Hij; simpl; [done|].
  destruct skip as [|k]; [|by apply IH].
  destruct (match_at r (c :: s) pos) as [res|]; [|by apply IH].
  destruct j as [|j]; [lia|]. destruct i as [|i]; simpl.
  - intros [= <-] Hj%list_elem_of_lookup_2%finditer_from_lower.
    unfold r_stop. simpl. lia.
  - apply IH. lia.
Qed.

(** What [locate] returns, read off the pattern: the header at the recorded
    offset and the shape of the captured name. *)
Lemma located_header (content : text) (m : impl_match) :
  m ∈ locate content ->
  exists w t,
    drop (start_pos m) content = impl_header (normalizer_name m) ++ str " {" ++ t
    /\ normalizer_name m = w ++ str "Normalizer"
    /\ w <> [] /\ forallb is_word w = true
    /\ header_at content m
    /\ header_stop m <= length content.
Proof.
  unfold locate. intros (rm & -> & Hin)%list_elem_of_fmap.
  apply finditer_from_sound in Hin as (j & Hj & Hl & Hm). simpl in Hj. subst j.
  rewrite Nat.add_0_l in Hm.
  apply match_impl in Hm as (w & t & Hd & Hne & Hw & Hgs & Hge & _).
  assert (group1 content rm = w ++ str "Normalizer") as Hname.
  { unfold group1, slice. rewrite Hgs, Hge.
    replace (r_start rm + 28 + length (w ++ str "Normalizer") - (r_start rm + 28))
      with (length (w ++ str "Normalizer")) by lia.
    rewrite <- drop_drop, Hd.
    change 28 with (length (str "impl ResourceNormalizer for ")).
    rewrite drop_app_length. apply take_app_length. }
  exists w, t. simpl. rewrite Hname.
  assert (drop (r_start rm) content
          = impl_header (w ++ str "Normalizer") ++ str " {" ++ t) as Hdrop.
  { rewrite Hd. unfold impl_header. by rewrite <- !app_assoc. }
  split_and!; try done.
  - unfold header_at. simpl. split.
    + rewrite Hdrop, app_assoc. apply starts_with_app.
    + rewrite forallb_app, Hw. reflexivity.
  - unfold header_stop, start_pos, normalizer_name.
    apply (f_equal length) in Hdrop. rewrite length_drop, !length_app in Hdrop.
    change (length (str " {")) with 2 in Hdrop. lia.
Qed.

(** X1: every located match is an occurrence of
    [impl ResourceNormalizer for <name> {] at its recorded offset, its name a
    non-empty run of word characters followed by [Normalizer]. *)
Theorem located_match_is_header (content : text) (m : impl_match) :
  m ∈ locate content ->
  exists w t,
    drop (start_pos m) content = impl_header (normalizer_name m) ++ str " {" ++ t
    /\ normalizer_name m = w ++ str "Normalizer"
    /\ w <> [] /\ forallb is_word w = true
    /\ header_at content m
    /\ header_stop m <= length content.
Proof. exact (located_header content m). Qed.

Lemma located_match_is_header_witness :
  exists w t,
    drop 51 (add_import Samples.foo_file)
    = impl_header (str "FooNormalizer") ++ str " {" ++ t
    /\ str "FooNormalizer" = w ++ str "Normalizer"
    /\ w <> [] /\ forallb is_word w = true
    /\ header_at (add_import Samples.foo_file) (ImplMatch (str "FooNormalizer") 51)
    /\ header_stop (ImplMatch (str "FooNormalizer") 51)
       <= length (add_import Samples.foo_file).
Proof.
  apply (located_match_is_header (add_import Samples.foo_file)
           (ImplMatch (str "FooNormalizer") 51)).
  vm_compute. apply list_elem_of_here.
Defined.

(** The reversed list of matches, as the loop walks it. *)
Lemma reverse_locate_apart (content : text) (i j : nat) (mi mj : impl_match) :
  i < j ->
  reverse (locate content) !! i = Some mi ->
  reverse (locate content) !! j = Some mj ->
  header_stop mj <= start_pos mi /\ start_pos mj < start_pos mi.
Proof.
  intros Hij Hi Hj.
  assert (header_stop mj <= start_pos mi) as H; [|unfold header_stop in *; lia].
  apply reverse_lookup_Some in Hi as (Hi & Hi'), Hj as (Hj & Hj').
  unfold locate in *. rewrite length_fmap in *.
  apply list_lookup_fmap_Some_1 in Hi as (ri & -> & Hi).
  apply list_lookup_fmap_Some_1 in Hj as (rj & -> & Hj).
  assert (r_stop rj <= r_start ri) as Hap
    by (eapply finditer_from_apart; [|exact Hj|exact Hi]; lia).
  apply list_elem_of_lookup_2, finditer_from_sound in Hj as (k & Hk & _ & Hm).
  simpl in Hk. subst k. rewrite Nat.add_0_l in Hm. apply match_impl in Hm as (w & t & Hd & _ & _ & Hgs & Hge & Hst).
  cbv beta. unfold header_stop, r_stop, impl_header, start_pos, normalizer_name in *.
  assert (group1 content rj = w ++ str "Normalizer") as ->.
  { unfold group1, slice. rewrite Hgs, Hge.
    replace (r_start rj + 28 + length (w ++ str "Normalizer") - (r_start rj + 28))
      with (length (w ++ str "Normalizer")) by lia.
    rewrite <- drop_drop, Hd.
    change 28 with (length (str "impl ResourceNormalizer for ")).
    rewrite drop_app_length. apply take_app_length. }
  rewrite (length_app (str _)).
  change (length (str "impl ResourceNormalizer for ")) with 28. lia.
Qed.

(** X2: located matches do not overlap and are met by the loop from the
    last to the first: of two iterations, the earlier one handles a match
    that starts at or after the end of the header of the match handled by
    the later one. *)
Theorem loop_order_descending (content : text) (i j : nat) (mi mj : impl_match) :
  i < j ->
  reverse (locate content) !! i = Some mi ->
  reverse (locate content) !! j = Some mj ->
  header_stop mj <= start_pos mi /\ start_pos mj < start_pos mi.
Proof. exact (reverse_locate_apart content i j mi mj). Qed.

Lemma loop_order_descending_witness :
  header_stop (ImplMatch (str "FooNormalizer") 51)
    <= start_pos (ImplMatch (str "BarNormalizer") 493)
  /\ start_pos (ImplMatch (str "FooNormalizer") 51)
     < start_pos (ImplMatch (str "BarNormalizer") 493).
Proof.
  apply (loop_order_descending (add_import Samples.foo_bar_file) 0 1).
  - lia.
  - vm_compute. reflexivity.
  - vm_compute. reflexivity.
Defined.

(** X3: a buffer that does not hold the text [impl ResourceNormalizer for ]
    after step 1 has no located match: the run prints [No ResourceNormalizer
    implementations found], returns false and writes nothing. *)
Theorem no_header_text_no_write (file_path : string) (content : text) :
  contains (str "impl ResourceNormalizer for ") (add_import content) = false ->
  migrate_text file_path content
  = FileRun false None [MProcessing file_path; MNoImpl] [].
Proof.
  intros Hno. apply migrate_text_no_match.
  destruct (locate (add_import content)) as [|m ms] eqn:L; [done|].
  destruct (located_header (add_import content) m) as (w & t & Hd & _).
  { rewrite L. apply list_elem_of_here. }
  assert (contains (str "impl ResourceNormalizer for ") (add_import content) = true)
    as Hyes; [|congruence].
  apply contains_occurs.
  exists (take (start_pos m) (add_import content)), (normalizer_name m ++ str " {" ++ t).
  rewrite <- (take_drop (start_pos m) (add_import content)) at 1.
  rewrite Hd. unfold impl_header. by rewrite <- !app_assoc.
Qed.

Lemma no_header_text_no_write_witness :
  migrate_text "a.rs" Samples.plain_file
  = FileRun false None [MProcessing "a.rs"; MNoImpl] [].
Proof.
  apply (no_header_text_no_write "a.rs" Samples.plain_file).
  vm_compute. reflexivity.
Defined.

(** ** Step 1 *)

(** X4: step 1 is idempotent, and the buffer it returns holds the import
    exactly when the content held the import or one of the two anchors. *)
Theorem import_step_idempotent (content : text) :
  add_import (add_import content) = add_import content
  /\ (contains import_line (add_import content) = true
      <-> contains import_line content = true
          \/ contains anyhow_line content = true
          \/ contains chrono_line content = true).
Proof.
  split; [apply add_import_idem|]. split.
  - intros H. destruct (contains import_line content) eqn:Hi; [by left|]. right.
    unfold add_import in H. rewrite Hi in H.
    destruct (contains anyhow_line content); [by left|].
    destruct (contains chrono_line content); [by right|congruence].
  - intros H. unfold add_import.
    destruct (contains import_line content) eqn:Hi; [done|].
    destruct H as [H|H]; [done|].
    destruct (contains anyhow_line content) eqn:Ha.
    + destruct (replace_all_occurs anyhow_line (anyhow_line ++ nl ++ import_line) content)
        as (a & b & _ & _ & ->); [done|done|].
      apply contains_occurs, occurs_app_r, occurs_app_l, import_in_after_anyhow.
    + destruct H as [H|H]; [done|]. rewrite H.
      destruct (replace_all_occurs chrono_line (import_line ++ nl ++ chrono_line) content)
        as (a & b & _ & _ & ->); [done|done|].
      apply contains_occurs, occurs_app_r, occurs_app_l, import_in_before_chrono.
Qed.

Lemma import_step_idempotent_witness :
  contains import_line (add_import Samples.foo_file) = true.
Proof.
  apply (import_step_idempotent Samples.foo_file).
  right. left. vm_compute. reflexivity.
Defined.

(** ** The brace count *)

Section BraceFacts.

Local Open Scope Z_scope.

Lemma open_not_close c : is_open_brace c = true -> is_close_brace c = false.
Proof. unfold is_open_brace, is_close_brace. by intros ->%Ascii.eqb_eq. Qed.

Lemma last_cons_take (c : ascii) (s : text) k :
  (0 < k <= length s)%nat -> last (c :: take k s) = last (take k s).
Proof.
  intros Hk. destruct (take k s) as [|d l] eqn:E; [|done].
  apply (f_equal length) in E. rewrite length_take in E. simpl in E. lia.
Qed.

Lemma scan_braces_spec s i bc fs e :
  scan_braces s i bc fs = Some e ->
  exists n, (e = i + n /\ 0 < n <= length s)%nat
    /\ stops bc fs (take n s)
    /\ forall k, (0 < k < n)%nat -> ~ stops bc fs (take k s).
Proof.
  unfold stops.
  revert i bc fs. induction s as [|c s IH]; intros i bc fs; [done|].
  cbn [scan_braces].
  assert (forall bc' fs',
    (is_open_brace c = true -> bc' = bc + 1 /\ fs' = true) ->
    (is_open_brace c = false -> fs' = fs /\
       bc' = bc - (if is_close_brace c then 1 else 0)) ->
    (is_close_brace c = true -> is_open_brace c = false ->
       (fs && (bc - 1 =? 0)) = false) ->
    scan_braces s (S i) bc' fs' = Some e ->
    exists n, (e = i + n /\ 0 < n <= length (c :: s))%nat
      /\ stops bc fs (take n (c :: s))
      /\ forall k, (0 < k < n)%nat -> ~ stops bc fs (take k (c :: s))) as Hrec.
  { intros bc' fs' Hopen Hother Hnostop (n & (-> & Hn) & (Hlast & Hfs & Hbal) & Hmin)%IH.
    unfold stops. exists (S n). split; [simpl; lia|].
    assert (forall l : text,
      balance bc (c :: l) = balance bc' l
      /\ ((fs = true \/ (0 < count_chars is_open_brace (c :: l))%nat)
          <-> (fs' = true \/ (0 < count_chars is_open_brace l)%nat))) as Hstep.
    { intros l. unfold balance. cbn [count_chars]. destruct (is_open_brace c) eqn:Ho.
      - destruct Hopen as [-> ->]; [done|]. rewrite (open_not_close _ Ho).
        split; [lia|]. split; intros _; [by left|right; lia].
      - destruct Hother as [-> ->]; [done|].
        split; [destruct (is_close_brace c); lia|]. simpl. tauto. }
    split.
    - cbn [take]. rewrite last_cons_take by lia.
      destruct (Hstep (take n s)) as [-> ->]. done.
    - intros [|k] Hk; [lia|]. cbn [take]. destruct k as [|k].
      + rewrite take_0. unfold balance. cbn [last count_chars].
        intros ([= ->] & Hf & Hb).
        specialize (Hnostop eq_refl eq_refl). simpl in Hf, Hb.
        destruct Hf as [->|?]; [|lia]. simpl in Hnostop.
        apply Z.eqb_neq in Hnostop. lia.
      + rewrite last_cons_take by lia.
        destruct (Hstep (take (S k) s)) as [-> ->].
        apply Hmin. lia. }
  destruct (is_open_brace c) eqn:Ho.
  - apply Hrec; [done|done|]. intros _ ?. done.
  - destruct (is_close_brace c) eqn:Hc.
    + destruct (fs && (bc - 1 =? 0)) eqn:Hstop.
      * intros [= <-]. apply andb_prop in Hstop as [-> Hz%Z.eqb_eq].
        exists 1%nat. split; [simpl; lia|]. split.
        -- cbn [take]. rewrite take_0. unfold balance. cbn [last count_chars].
           rewrite Ho, Hc.
           unfold is_close_brace in Hc. apply Ascii.eqb_eq in Hc as ->.
           split; [done|]. split; [by left|lia].
        -- intros k Hk. lia.
      * apply Hrec; [done|split; [done|lia]|done].
    + apply Hrec; [done|split; [done|lia]|done].
Qed.

End BraceFacts.

(** The brace scan of lines 136-152, from the insertion point. *)
Lemma find_impl_end_spec (content : text) (ins stop : nat) :
  find_impl_end content ins = Some stop ->
  let opens k := count_chars is_open_brace (slice ins k content) in
  let closes k := count_chars is_close_brace (slice ins k content) in
  ins < stop <= length content
  /\ last (slice ins stop content) = Some "}"%char
  /\ 0 < opens stop /\ opens stop = closes stop
  /\ forall k, ins < k < stop ->
       ~ (last (slice ins k content) = Some "}"%char
          /\ 0 < opens k /\ opens k = closes k).
Proof.
  unfold find_impl_end.
  destruct (scan_braces (drop ins content) 0 0 false) as [e|] eqn:E; [|done].
  intros [= <-]. cbv zeta.
  apply scan_braces_spec in E as (n & (-> & Hn) & (Hlast & Hfs & Hbal) & Hmin).
  unfold stops, balance in *. rewrite length_drop in Hn. simpl.
  assert (forall k, slice ins (ins + k) content = take k (drop ins content)) as Hsl.
  { intros k. unfold slice. f_equal. lia. }
  rewrite !Hsl. split; [lia|]. split; [done|].
  destruct Hfs as [?|Hfs]; [done|]. split; [done|]. split; [lia|].
  intros k Hk (Hl & Ho & Hb).
  replace k with (ins + (k - ins)) in Hl, Ho, Hb by lia. rewrite !Hsl in *.
  apply (Hmin (k - ins)); [lia|]. split; [done|]. split; [by right|lia].
Qed.

(** X5: the end found for a block is the first offset past the insertion
    point at which the text read so far ends with a closing brace, holds an
    opening brace and holds as many opening as closing braces; it lies
    within the buffer. *)
Theorem impl_end_first_balance (content : text) (ins stop : nat) :
  find_impl_end content ins = Some stop ->
  let opens k := count_chars is_open_brace (slice ins k content) in
  let closes k := count_chars is_close_brace (slice ins k content) in
  ins < stop <= length content
  /\ last (slice ins stop content) = Some "}"%char
  /\ 0 < opens stop /\ opens stop = closes stop
  /\ forall k, ins < k < stop ->
       ~ (last (slice ins k content) = Some "}"%char
          /\ 0 < opens k /\ opens k = closes k).
Proof. exact (find_impl_end_spec content ins stop). Qed.

Lemma impl_end_first_balance_witness :
  let content := rewrite_tags (add_import Samples.foo_file)
                   (Fragment (nl ++ str "        ") 326 374 (str "foo_id")
                      (str "AWS::Foo::Bar")) in
  let opens k := count_chars is_open_brace (slice 51 k content) in
  let closes k := count_chars is_close_brace (slice 51 k content) in
  51 < 811 <= length content
  /\ last (slice 51 811 content) = Some "}"%char
  /\ 0 < opens 811 /\ opens 811 = closes 811
  /\ forall k, 51 < k < 811 ->
       ~ (last (slice 51 k content) = Some "}"%char
          /\ 0 < opens k /\ opens k = closes k).
Proof.
  apply (impl_end_first_balance
           (rewrite_tags (add_import Samples.foo_file)
              (Fragment (nl ++ str "        ") 326 374 (str "foo_id")
                 (str "AWS::Foo::Bar"))) 51 811).
  vm_compute. reflexivity.
Defined.

(** ** [main] and the disk *)

Lemma write_back_other p r (fs : files) q :
  p <> q -> write_back p r fs !! q = fs !! q.
Proof.
  intros Hne. unfold write_back. destruct (written r); [|done].
  by rewrite lookup_insert_ne.
Qed.

Lemma main_loop_other paths st q :
  q ∉ paths -> disk (main_loop paths st) !! q = disk st !! q.
Proof.
  revert st. induction paths as [|p paths IH]; intros st Hq; simpl; [done|].
  apply not_elem_of_cons in Hq as [Hne Hq].
  destruct (disk st !! p); rewrite IH by done; simpl; [|done].
  by apply write_back_other.
Qed.

Lemma main_loop_count_le paths st :
  migrated_count (main_loop paths st) <= migrated_count st + length paths.
Proof.
  revert st. induction paths as [|p paths IH]; intros st; simpl; [lia|].
  destruct (disk st !! p) as [c|].
  - etrans; [apply IH|]. simpl. destruct (returned _); lia.
  - etrans; [apply IH|]. simpl. lia.
Qed.

(** A path listed once ends with the content a run on it alone leaves. *)
Lemma main_loop_once paths st p c :
  NoDup paths -> p ∈ paths -> disk st !! p = Some c ->
  disk (main_loop paths st) !! p = Some (disk_after p c).
Proof.
  revert st. induction paths as [|q paths IH]; intros st Hnd Hin Hp; [by inversion Hin|].
  apply NoDup_cons in Hnd as [Hq Hnd]. simpl.
  destruct (decide (q = p)) as [->|Hne].
  - rewrite Hp. rewrite main_loop_other by done. simpl.
    unfold write_back, disk_after. destruct (written (migrate_text p c)); simpl.
    + apply lookup_insert_eq.
    + done.
  - apply elem_of_cons in Hin as [?|Hin]; [done|].
    destruct (disk st !! q) as [cq|] eqn:E; apply IH; try done; simpl.
    by rewrite write_back_other.
Qed.

(** X6: [main] creates and deletes no file, leaves every file that is not
    listed on the command line as it is, and counts at most as many files
    as listed paths exist; when no path is listed twice, every listed file
    ends with the content a run on that file alone leaves. *)
Theorem main_changes_listed_files_only (argv : list string) (fs : files) :
  let out := main argv fs in
  (forall q, is_Some (final_disk out !! q) <-> is_Some (fs !! q))
  /\ (forall q, q ∉ tail argv -> final_disk out !! q = fs !! q)
  /\ files_migrated out <= length (existing fs (tail argv))
  /\ (NoDup (tail argv) ->
      forall p c, p ∈ tail argv -> fs !! p = Some c ->
        final_disk out !! p = Some (disk_after p c)).
Proof.
  destruct argv as [|script [|p paths]]; cbv zeta.
  - simpl. split_and!; [done|done|apply Nat.le_0_l|].
    intros _ p c Hin. by inversion Hin.
  - simpl. split_and!; [done|done|apply Nat.le_0_l|].
    intros _ p c Hin. by inversion Hin.
  - cbn [main final_disk files_migrated tail]. split_and!.
    + intros q. apply (main_loop_exists (p :: paths) (MainState fs 0 [])).
    + intros q Hq. by rewrite main_loop_other.
    + destruct (main_loop_existing (p :: paths) (MainState fs 0 []) fs) as [_ ->]; [done|].
      apply (main_loop_count_le _ (MainState fs 0 [])).
    + intros Hnd q c Hin Hq. by apply main_loop_once.
Qed.

Lemma main_changes_listed_files_only_witness :
  let fs : files := {[ "a.rs" := Samples.foo_file; "b.rs" := Samples.baz_file ]} in
  final_disk (main ["migrate_normalizers.py"; "a.rs"; "missing.rs"] fs) !! "b.rs"
  = fs !! "b.rs"
  /\ final_disk (main ["migrate_normalizers.py"; "a.rs"; "missing.rs"] fs) !! "a.rs"
     = Some (disk_after "a.rs" Samples.foo_file).
Proof.
  intros fs.
  destruct (main_changes_listed_files_only
              ["migrate_normalizers.py"; "a.rs"; "missing.rs"] fs) as (_ & H1 & _ & H2).
  split.
  - apply H1. simpl. intros [?|[?|H]%elem_of_cons]%elem_of_cons; [done|done|by inversion H].
  - apply H2.
    + simpl. repeat constructor; intros H; repeat (apply elem_of_cons in H as [?|H]; [done|]);
        by inversion H.
    + apply list_elem_of_here.
    + vm_compute. reflexivity.
Defined.

(** ** Offsets stay valid *)

Lemma word_not_space c : is_word c = true -> is_space c = false.
Proof. destruct c as [[] [] [] [] [] [] [] []]; vm_compute; congruence. Qed.

Lemma tags_not_in_prefix (Y : text) j w t :
  j < 27 -> w <> [] -> forallb is_space w = true ->
  drop j (str "impl ResourceNormalizer for " ++ Y) = w ++ tags_statement ++ t -> False.
Proof.
  intros Hj Hne Hw H.
  do 27 (destruct j as [|j]; [simpl in H; space_run H Hw w|]). lia.
Qed.

Lemma tags_not_in_name name rest j w t :
  forallb is_word name = true -> w <> [] -> forallb is_space w = true ->
  drop j (name ++ str " {" ++ rest) = w ++ tags_statement ++ t ->
  length name + 2 <= j.
Proof.
  intros Hname Hne Hw. revert j. induction name as [|a name IH]; intros j H.
  - destruct j as [|[|j]]; [| |simpl; lia].
    + simpl in H. space_run H Hw w.
    + simpl in H. destruct w as [|? w]; [done|]. peel_space H Hw w.
  - apply andb_prop in Hname as [Ha Hname]. destruct j as [|j].
    + simpl in H. destruct w as [|c w]; [done|]. simpl in H. injection H as <- H.
      apply andb_prop in Hw as [Hc _]. by rewrite (word_not_space _ Ha) in Hc.
    + simpl in H. specialize (IH Hname j H). simpl. lia.
Qed.

(** No tag extraction statement, with its leading whitespace, starts inside
    a header. *)
Lemma header_blocks_tags name rest j w t :
  forallb is_word name = true -> w <> [] -> forallb is_space w = true ->
  drop j (impl_header name ++ str " {" ++ rest) = w ++ tags_statement ++ t ->
  length (impl_header name) + 2 <= j.
Proof.
  intros Hname Hne Hw H. unfold impl_header in *. rewrite length_app.
  change (length (str "impl ResourceNormalizer for ")) with 28.
  rewrite <- app_assoc in H.
  destruct (decide (j < 27)) as [Hlt|Hge]; [by destruct (tags_not_in_prefix _ _ _ _ Hlt Hne Hw H)|].
  destruct (decide (j = 27)) as [->|Hne27].
  - exfalso. simpl in H. destruct w as [|c w]; [done|]. peel_space H Hw w.
    destruct w as [|c w].
    + simpl in H. unfold tags_statement in H.
      destruct name as [|a [|b [|c [|d name]]]]; simpl in H; try discriminate H.
      injection H as -> -> -> -> H. simpl in Hname. by vm_compute in Hname.
    + pose proof (tags_not_in_name name rest 0 (c :: w) t Hname ltac:(done) Hw H). lia.
  - assert (drop j (str "impl ResourceNormalizer for " ++ name ++ str " {" ++ rest)
            = drop (j - 28) (name ++ str " {" ++ rest)) as E.
    { rewrite <- (drop_app_length (str "impl ResourceNormalizer for ")
                    (name ++ str " {" ++ rest)) at 2.
      rewrite drop_drop. f_equal.
      change (length (str "impl ResourceNormalizer for ")) with 28. lia. }
    rewrite E in H.
    pose proof (tags_not_in_name name rest (j - 28) w t Hname Hne Hw H). lia.
Qed.

Lemma starts_with_take_eq (p s : text) :
  starts_with p s = true <-> take (length p) s = p.
Proof.
  split.
  - intros [t ->]%starts_with_inv. apply take_app_length.
  - intros H. rewrite <- (take_drop (length p) s), H. apply starts_with_app.
Qed.

(** Whether [p] starts at offset [k] is read from the first [k + length p]
    characters. *)
Lemma starts_with_agree (p s1 s2 : text) k n :
  k + length p <= n -> take n s1 = take n s2 ->
  starts_with p (drop k s1) = starts_with p (drop k s2).
Proof.
  intros Hn Heq.
  assert (take (length p) (drop k s1) = take (length p) (drop k s2)) as E.
  { assert (forall s : text, take (k + length p) s = take (k + length p) (take n s))
      as Ht by (intros s; rewrite take_take; f_equal; lia).
    rewrite !take_drop_commute. by rewrite (Ht s1), (Ht s2), Heq. }
  destruct (starts_with p (drop k s1)) eqn:E1.
  - symmetry. apply starts_with_take_eq. rewrite <- E. by apply starts_with_take_eq.
  - destruct (starts_with p (drop k s2)) eqn:E2; [|done].
    apply starts_with_take_eq in E2. rewrite <- E in E2.
    apply starts_with_take_eq in E2. congruence.
Qed.

(** The tag extraction statement of a block is read after the header. *)
Lemma tags_after_header content m f :
  header_at content m -> extract content (start_pos m) = inr f ->
  header_stop m <= tags_line_start f.
Proof.
  intros [Hh Hname] He. unfold extract in He.
  destruct (search normalize_pattern _); [|done].
  destruct (search tags_pattern _) as [tm|] eqn:Ht; [|done].
  destruct (finditer resource_id_pattern _) as [|idm ids]; [done|].
  destruct (search resource_type_pattern _); [|done].
  injection He as <-. cbn [tags_line_start]. unfold header_stop.
  destruct (search_tags_read _ _ Ht) as (t & Hd & Hne & Hsp & _).
  apply starts_with_inv in Hh as [rest Hrest].
  set (w := group1 _ tm) in *.
  unfold impl_section, slice in Hd. rewrite drop_take_comm, Hrest in Hd.
  apply take_of_take_app in Hd as Hd'.
  assert (drop (r_start tm) ((impl_header (normalizer_name m) ++ str " {") ++ rest)
          = w ++ tags_statement ++ drop (length (w ++ tags_statement))
              (drop (r_start tm) ((impl_header (normalizer_name m) ++ str " {") ++ rest)))
    as Hx.
  { rewrite <- (take_drop (length (w ++ tags_statement))
                  (drop (r_start tm) ((impl_header (normalizer_name m) ++ str " {") ++ rest)))
      at 1.
    rewrite Hd'. by rewrite <- app_assoc. }
  rewrite <- app_assoc in Hx.
  pose proof (header_blocks_tags _ _ _ _ _ Hname Hne Hsp Hx). lia.
Qed.

(** The rewrite of the tag extraction statement leaves the buffer up to the
    statement as it was. *)
Lemma rewrite_tags_prefix content start f :
  extract content start = inr f ->
  take (tags_line_start f) (rewrite_tags content f) = take (tags_line_start f) content
  /\ tags_line_start f <= length content.
Proof.
  intros He. destruct (extract_fragment _ _ _ He) as (_ & _ & _ & _ & Hte & Hspan & _).
  assert (tags_line_start f <= length content) as Hle.
  { apply (f_equal length) in Hspan. unfold slice in Hspan.
    rewrite length_take, length_drop, length_app in Hspan.
    change (length tags_statement) with 39 in Hspan. lia. }
  split; [|done]. unfold rewrite_tags.
  rewrite take_app_le by (rewrite length_take; lia).
  rewrite take_take. f_equal. lia.
Qed.

(** One iteration on a buffer whose first occurrence of the header text
    is the match. *)
Lemma process_match_frame (content content' : text) (m : impl_match) (o : outcome) :
  header_at content m ->
  (forall k, k < start_pos m ->
     starts_with (impl_header (normalizer_name m)) (drop k content) = false) ->
  process_match content m = (content', o) ->
  take (start_pos m) content' = take (start_pos m) content
  /\ o <> LostTrack
  /\ (o = Migrated ->
      exists f stop,
        extract content (start_pos m) = inr f
        /\ find_impl_end (rewrite_tags content f) (start_pos m) = Some stop
        /\ content' = take (start_pos m) content
             ++ compose (normalizer_name m) f
                  (slice (start_pos m) stop (rewrite_tags content f))
             ++ drop stop (rewrite_tags content f)).
Proof.
  intros Hh Hfirst. unfold process_match.
  destruct (extract content (start_pos m)) as [skip|f] eqn:He.
  { intros [= <- <-]. apply extract_inl in He. by destruct skip. }
  pose proof (tags_after_header _ _ _ Hh He) as Hts.
  destruct (rewrite_tags_prefix _ _ _ He) as [Hpre Hlen].
  set (h := impl_header (normalizer_name m)) in *.
  set (buffer := rewrite_tags content f) in *.
  unfold header_stop in Hts. fold h in Hts.
  assert (forall k, k + length h <= tags_line_start f ->
            starts_with h (drop k buffer) = starts_with h (drop k content)) as Hsame
    by (intros k Hk; by eapply starts_with_agree).
  assert (take (start_pos m) buffer = take (start_pos m) content) as Hstart.
  { assert (forall s : text,
              take (start_pos m) s = take (start_pos m) (take (tags_line_start f) s))
      as Ht by (intros s; rewrite take_take; f_equal; lia).
    by rewrite (Ht buffer), (Ht content), Hpre. }
  assert (find h buffer = Some (start_pos m)) as Hfind.
  { destruct Hh as [Hh _]. apply starts_with_inv in Hh as [rest Hrest].
    assert (starts_with h (drop (start_pos m) content) = true) as Hat
      by (fold h in Hrest; rewrite Hrest, <- app_assoc; apply starts_with_app).
    rewrite <- Hsame in Hat by lia.
    destruct (find_le _ _ _ Hat) as (ins & Hins & Hle). rewrite Hins. f_equal.
    destruct (decide (ins = start_pos m)) as [|Hne]; [done|].
    destruct (find_Some _ _ _ Hins) as (_ & Hthere & _).
    rewrite Hsame, Hfirst in Hthere by lia. done. }
  rewrite Hfind.
  assert (length (take (start_pos m) buffer) = start_pos m) as Hl.
  { rewrite Hstart, length_take. lia. }
  destruct (find_impl_end buffer (start_pos m)) as [stop|] eqn:Hs.
  - intros [= <- <-]. split_and!; [|done|].
    + rewrite take_app_le by lia. rewrite take_ge by lia. done.
    + intros _. exists f, stop. by rewrite Hstart.
  - intros [= <- <-]. done.
Qed.

(** X7: when the header of a match stands at its recorded offset and the
    header text occurs nowhere before that offset, the iteration leaves
    every character before the offset as it was, never ends with [Lost
    track of impl], and, when it migrates, splices the composed text at the
    recorded offset. *)
Theorem iteration_keeps_prefix (content content' : text) (m : impl_match) (o : outcome) :
  header_at content m ->
  (forall k, k < start_pos m ->
     starts_with (impl_header (normalizer_name m)) (drop k content) = false) ->
  process_match content m = (content', o) ->
  take (start_pos m) content' = take (start_pos m) content
  /\ o <> LostTrack
  /\ (o = Migrated ->
      exists f stop,
        extract content (start_pos m) = inr f
        /\ find_impl_end (rewrite_tags content f) (start_pos m) = Some stop
        /\ content' = take (start_pos m) content
             ++ compose (normalizer_name m) f
                  (slice (start_pos m) stop (rewrite_tags content f))
             ++ drop stop (rewrite_tags content f)).
Proof. exact (process_match_frame content content' m o). Qed.

Lemma iteration_keeps_prefix_witness :
  take 51 (process_match (add_import Samples.foo_file)
             (ImplMatch (str "FooNormalizer") 51)).1
  = take 51 (add_import Samples.foo_file).
Proof.
  apply (iteration_keeps_prefix (add_import Samples.foo_file) _
           (ImplMatch (str "FooNormalizer") 51)
           (process_match (add_import Samples.foo_file)
              (ImplMatch (str "FooNormalizer") 51)).2).
  - split; vm_compute; reflexivity.
  - intros k Hk. cbn [start_pos] in Hk.
    assert (find (impl_header (str "FooNormalizer")) (add_import Samples.foo_file)
            = Some 51) as Hf by (vm_compute; reflexivity).
    destruct (find_Some _ _ _ Hf) as (_ & _ & Hmin). by apply Hmin.
  - by destruct (process_match _ _).
Defined.

Lemma apart_of_lookup (l : list impl_match) :
  (forall i j a b, i < j -> l !! i = Some a -> l !! j = Some b ->
     header_stop b <= start_pos a) ->
  apart l.
Proof.
  induction l as [|x l IH]; intros H; [done|]. split.
  - apply Forall_lookup. intros i m' Hm'. apply (H 0 (S i)); [lia|done|done].
  - apply IH. intros i j a b Hij Ha Hb. apply (H (S i) (S j)); [lia|done|done].
Qed.

Lemma take_agree_le (s1 s2 : text) k n :
  k <= n -> take n s1 = take n s2 -> take k s1 = take k s2.
Proof.
  intros Hk H.
  assert (forall s : text, take k s = take k (take n s)) as Ht
    by (intros s; rewrite take_take; f_equal; lia).
  by rewrite (Ht s1), (Ht s2), H.
Qed.

(** The invariant of the loop: the buffer agrees with the located text up
    to the start of the match processed last. *)
Lemma process_all_frame c ms :
  forall buffer B final its,
  (forall m, m ∈ ms ->
     header_at c m /\ header_stop m <= B
     /\ forall k, k < start_pos m ->
          starts_with (impl_header (normalizer_name m)) (drop k c) = false) ->
  apart ms -> take B buffer = take B c ->
  process_all buffer ms = (final, its) ->
  Forall (fun mo => mo.2 <> LostTrack) its
  /\ (forall k, k <= B -> (forall m, m ∈ ms -> k <= start_pos m) ->
        take k final = take k c)
  /\ (forall i m b, ms !! i = Some m -> buffers_met buffer ms !! i = Some b ->
        take (header_stop m) b = take (header_stop m) c).
Proof.
  induction ms as [|m ms IH]; intros buffer B final its Hms Hap Hpre; simpl.
  - intros [= <- <-]. split; [constructor|]. split; [|done].
    intros k Hk _. by eapply take_agree_le.
  - destruct (process_match buffer m) as [buffer' o] eqn:Hp.
    destruct (process_all buffer' ms) as [final' os] eqn:Ha.
    intros [= <- <-]. destruct Hap as [Hfa Hap].
    destruct (Hms m) as ([Hh Hname] & HB & Hfirst); [apply list_elem_of_here|].
    assert (header_stop m = start_pos m + length (impl_header (normalizer_name m) ++ str " {"))
      as Hstop by (unfold header_stop; rewrite length_app; simpl; lia).
    assert (header_at buffer m) as Hhb.
    { split; [|done]. etrans; [|exact Hh].
      eapply starts_with_agree; [|exact Hpre]. lia. }
    assert (forall k, k < start_pos m ->
              starts_with (impl_header (normalizer_name m)) (drop k buffer) = false)
      as Hfb.
    { intros k Hk. etrans; [|exact (Hfirst k Hk)].
      eapply starts_with_agree; [|exact Hpre]. rewrite length_app in Hstop. lia. }
    destruct (process_match_frame _ _ _ _ Hhb Hfb Hp) as (Hkeep & Hlost & _).
    assert (take (start_pos m) buffer' = take (start_pos m) c) as Hpre'.
    { rewrite Hkeep. eapply take_agree_le; [|exact Hpre]. lia. }
    destruct (IH buffer' (start_pos m) final' os) as (Hos & Hfin & Hmet); try done.
    { intros m' Hm'. destruct (Hms m') as (? & ? & ?); [by apply elem_of_cons; right|].
      rewrite Forall_forall in Hfa. split_and!; try done. by apply Hfa. }
    split_and!.
    + by constructor.
    + intros k Hk Hall. apply Hfin.
      * apply Hall, list_elem_of_here.
      * intros m' Hm'. apply Hall. apply elem_of_cons. by right.
    + intros [|i] m' b; simpl.
      * intros [= <-] [= <-]. eapply take_agree_le; [|exact Hpre]. done.
      * apply Hmet.
Qed.

(** X8: when the header text of every located match occurs in the buffer
    first at that match, the recorded offsets stay valid through the loop:
    every iteration receives a buffer that agrees with the located text up
    to the end of its header, no iteration ends with [Lost track of impl],
    and the text before the first located match is never changed. *)
Theorem offsets_stay_valid (file_path : string) (content : text) :
  let c := add_import content in
  (forall m, m ∈ locate c ->
     find (impl_header (normalizer_name m)) c = Some (start_pos m)) ->
  (forall i m b,
     reverse (locate c) !! i = Some m ->
     buffers_met c (reverse (locate c)) !! i = Some b ->
     take (header_stop m) b = take (header_stop m) c /\ header_at b m)
  /\ (forall m o, (m, o) ∈ iterations (migrate_text file_path content) -> o <> LostTrack)
  /\ (forall k, (forall m, m ∈ locate c -> k <= start_pos m) ->
        take k (final_buffer content) = take k c).
Proof.
  intros c Hfirst.
  destruct (process_all c (reverse (locate c))) as [final its] eqn:Ha.
  destruct (process_all_frame c (reverse (locate c)) c (length c) final its)
    as (Hits & Hfin & Hmet); try done.
  { intros m Hm. rewrite elem_of_reverse in Hm.
    destruct (located_header c m Hm) as (_ & _ & _ & _ & _ & _ & Hh & Hlen).
    split_and!; try done.
    intros k Hk. destruct (find_Some _ _ _ (Hfirst m Hm)) as (_ & _ & Hmin). by apply Hmin. }
  { apply apart_of_lookup. intros i j a b Hij Hi Hj.
    by destruct (reverse_locate_apart c i j a b Hij Hi Hj). }
  split_and!.
  - intros i m b Hm Hb. pose proof (Hmet i m b Hm Hb) as Heq. split; [done|].
    apply list_elem_of_lookup_2 in Hm. rewrite elem_of_reverse in Hm.
    destruct (located_header c m Hm) as (_ & _ & _ & _ & _ & _ & [Hh Hn] & _).
    split; [|done]. etrans; [|exact Hh]. eapply starts_with_agree; [|exact Heq].
    unfold header_stop. rewrite length_app. simpl. lia.
  - intros m o Hin.
    destruct (decide (locate (add_import content) = [])) as [E|Hne].
    + rewrite migrate_text_no_match in Hin by done. by inversion Hin.
    + rewrite migrate_text_matches in Hin by done. cbv zeta in Hin.
      fold c in Hin. rewrite Ha in Hin. rewrite Forall_forall in Hits.
      apply (Hits (m, o)). by case_bool_decide.
  - intros k Hk. unfold final_buffer. fold c. rewrite Ha. simpl.
    destruct (locate c) as [|m ms] eqn:L.
    { simpl in Ha. by injection Ha as <- <-. }
    apply Hfin.
    + assert (m ∈ m :: ms) as Hm by apply list_elem_of_here.
      specialize (Hk m Hm). rewrite <- L in Hm.
      destruct (located_header c m Hm) as (_ & _ & _ & _ & _ & _ & _ & Hlen).
      unfold header_stop in Hlen. lia.
    + intros m' Hm'. rewrite elem_of_reverse in Hm'. by apply Hk.
Qed.

Lemma offsets_stay_valid_witness :
  take 51 (final_buffer Samples.foo_bar_file) = take 51 (add_import Samples.foo_bar_file).
Proof.
  assert (locate (add_import Samples.foo_bar_file)
          = [ImplMatch (str "FooNormalizer") 51; ImplMatch (str "BarNormalizer") 493])
    as L by (vm_compute; reflexivity).
  destruct (offsets_stay_valid "a.rs" Samples.foo_bar_file) as (_ & _ & H).
  - intros m Hm. rewrite L in Hm.
    apply elem_of_cons in Hm as [->|Hm]; [vm_compute; reflexivity|].
    apply list_elem_of_singleton in Hm as ->. vm_compute. reflexivity.
  - apply H. intros m Hm. rewrite L in Hm.
    apply elem_of_cons in Hm as [->|Hm]; [simpl; lia|].
    apply list_elem_of_singleton in Hm as ->. simpl. lia.
Defined.


(** ** What the searches pick *)

(** A repetition followed by something that matches gives a match: the
    greedy run may take more, it never gives up a match that exists. *)
Lemma star_complete p (k : text -> nat -> option mres) w t pos :
  forallb p w = true -> k t (pos + length w) <> None -> star p k (w ++ t) pos <> None.
Proof.
  revert pos. induction w as [|c w IH]; intros pos Hw Hk.
  - simpl in *. rewrite Nat.add_0_r in Hk. destruct t as [|c t]; simpl; [done|].
    destruct (p c); [|done]. by destruct (star p k t (S pos)).
  - simpl in Hw. apply andb_prop in Hw as [Hc Hw]. simpl. rewrite Hc.
    specialize (IH (S pos) Hw).
    destruct (star p k (w ++ t) (S pos)); [done|].
    exfalso. apply IH; [|done]. by replace (S pos + length w) with (pos + length (c :: w))
      by (simpl; lia).
Qed.

Lemma match_tags_complete w t pos :
  w <> [] -> forallb is_space w = true ->
  match_at tags_pattern (w ++ tags_statement ++ t) pos <> None.
Proof.
  intros Hne Hw. unfold match_at, tags_pattern. cbn [mtch].
  destruct w as [|c w]; [done|]. simpl in Hw. apply andb_prop in Hw as [Hc Hw].
  cbn [app]. rewrite Hc. apply star_complete; [done|].
  cbn [mtch]. by rewrite strip_prefix_app.
Qed.

Lemma match_resource_id_complete w t pos :
  w <> [] -> forallb is_word w = true ->
  match_at resource_id_pattern (str "let " ++ w ++ str " = raw_response" ++ t) pos <> None.
Proof.
  intros Hne Hw. unfold match_at, resource_id_pattern. cbn [mtch].
  rewrite strip_prefix_app. cbn [mtch].
  destruct w as [|c w]; [done|]. simpl in Hw. apply andb_prop in Hw as [Hc Hw].
  cbn [app]. rewrite Hc. apply star_complete; [done|].
  cbn [mtch]. by rewrite strip_prefix_app.
Qed.

(** Whether a pattern matches does not depend on the offset and the group
    span the matcher starts from. *)
Lemma star_none_indep p (k k' : text -> nat -> option mres) s pos pos' :
  (forall s0 q q', k s0 q = None -> k' s0 q' = None) ->
  star p k s pos = None -> star p k' s pos' = None.
Proof.
  intros Hk. revert pos pos'. induction s as [|c s IH]; intros pos pos'; simpl.
  - apply Hk.
  - destruct (p c); [|apply Hk].
    destruct (star p k s (S pos)) eqn:E; [done|].
    rewrite (IH _ (S pos') E). apply Hk.
Qed.

Lemma mtch_none_indep r gs ge gs' ge' s pos pos' :
  mtch r gs ge s pos = None -> mtch r gs' ge' s pos' = None.
Proof.
  revert gs ge gs' ge' s pos pos'.
  induction r as [|a r IH]; intros gs ge gs' ge' s pos pos'; [done|].
  destruct a as [l|p|p| |]; cbn [mtch].
  - destruct (strip_prefix l s); [apply IH|done].
  - apply star_none_indep. intros s0 q q'. apply IH.
  - destruct s as [|c s]; [done|]. destruct (p c); [|done].
    apply star_none_indep. intros s0 q q'. apply IH.
  - apply IH.
  - apply IH.
Qed.

(** [re.search] returns the leftmost match. *)
Lemma search_from_first r s pos m k :
  search_from r s pos = Some m -> pos + k < r_start m ->
  match_at r (drop k s) 0 = None.
Proof.
  revert pos k. induction s as [|c s IH]; intros pos k; simpl.
  - destruct (match_at r [] pos) as [res|]; [|done]. intros [= <-]. simpl. lia.
  - destruct (match_at r (c :: s) pos) as [res|] eqn:E.
    + intros [= <-]. simpl. lia.
    + intros Hs Hk. destruct k as [|k].
      * simpl. unfold match_at in *. by eapply mtch_none_indep.
      * simpl. eapply (IH (S pos)); [done|lia].
Qed.

(** X9: the span replaced by the fetch starts right after a character that
    is not whitespace, or at the header: the captured indent is the whole
    run of blanks and line breaks in front of [let tags], and the statement
    picked is the first one of the window. *)
Theorem indent_is_whole_blank_run (content : text) (start : nat) (f : fragment) :
  extract content start = inr f ->
  forallb is_space (indent f) = true
  /\ slice (tags_line_start f) (tags_line_end f) content = indent f ++ tags_statement
  /\ (forall c, start < tags_line_start f ->
        content !! (tags_line_start f - 1) = Some c -> is_space c = false)
  /\ (forall k w t, start + k < tags_line_start f -> w <> [] ->
        forallb is_space w = true ->
        drop k (impl_section content start) <> w ++ tags_statement ++ t).
Proof.
  intros He. destruct (extract_fragment _ _ _ He) as (_ & Hsp & _ & _ & _ & Hspan & _).
  split; [done|]. split; [done|].
  unfold extract in He.
  destruct (search normalize_pattern _); [|done].
  destruct (search tags_pattern _) as [tm|] eqn:Ht; [|done].
  destruct (finditer resource_id_pattern _) as [|idm ids]; [done|].
  destruct (search resource_type_pattern _); [|done].
  injection He as <-. cbn [tags_line_start indent] in *.
  set (section := impl_section content start) in *.
  assert (forall k w t, start + k < start + r_start tm -> w <> [] ->
            forallb is_space w = true -> drop k section <> w ++ tags_statement ++ t)
    as Hfirst.
  { intros k w t Hk Hne Hw Hd.
    assert (match_at tags_pattern (drop k section) 0 = None) as Hnone
      by (eapply (search_from_first _ _ 0); [exact Ht|simpl; lia]).
    rewrite Hd in Hnone. by apply match_tags_complete in Hnone. }
  split; [|done].
  intros c Hlt Hc. destruct (is_space c) eqn:Hcs; [|done]. exfalso.
  destruct (search_tags_read _ _ Ht) as (t & Hd & Hne & _ & Hstop & Hlen).
  pose proof (impl_section_length content start) as Hwin. fold section in Hwin.
  apply (Hfirst (r_start tm - 1) (c :: group1 section tm) t); [lia|done|by simpl; rewrite Hcs|].
  assert (section !! (r_start tm - 1) = Some c) as Hsc.
  { unfold section, impl_section, slice. rewrite lookup_take_lt by lia.
    rewrite lookup_drop. rewrite <- Hc. f_equal. lia. }
  rewrite (drop_S _ c) by done.
  replace (S (r_start tm - 1)) with (r_start tm) by lia.
  rewrite Hd. by rewrite <- app_assoc.
Qed.

Lemma indent_is_whole_blank_run_witness :
  let content := add_import Samples.foo_file in
  let f := Fragment (nl ++ str "        ") 326 374 (str "foo_id") (str "AWS::Foo::Bar") in
  forallb is_space (indent f) = true
  /\ slice (tags_line_start f) (tags_line_end f) content = indent f ++ tags_statement.
Proof.
  intros content f.
  destruct (indent_is_whole_blank_run content 51 f) as (H1 & H2 & _).
  - vm_compute. reflexivity.
  - exact (conj H1 H2).
Defined.

(** X10: the identifier handed to the fetch is the variable of the first
    [let <word> = raw_response] between the header and the tag extraction
    statement: it is bound there, and no such binding starts earlier. *)
Theorem resource_id_is_first_binding (content : text) (start : nat) (f : fragment) :
  extract content start = inr f ->
  let before := slice start (tags_line_start f) content in
  exists a b,
    before = a ++ str "let " ++ resource_id_var f ++ str " = raw_response" ++ b
    /\ forall a' w b',
         before = a' ++ str "let " ++ w ++ str " = raw_response" ++ b' ->
         w <> [] -> forallb is_word w = true -> length a <= length a'.
Proof.
  intros He. unfold extract in He.
  destruct (search normalize_pattern _); [|done].
  destruct (search tags_pattern _) as [tm|]; [|done].
  destruct (finditer resource_id_pattern _) as [|idm ids] eqn:Hi; [done|].
  destruct (search resource_type_pattern _); [|done].
  injection He as <-. cbn [tags_line_start resource_id_var]. cbv zeta.
  set (before := slice start (start + r_start tm) content) in *.
  assert (search resource_id_pattern before = Some idm) as Hs.
  { unfold search, finditer in *. rewrite <- finditer_from_head by done. by rewrite Hi. }
  pose proof Hs as [Hl Hm]%search_sound.
  apply match_resource_id in Hm as (w0 & t & Hd & Hne & Hw & Hgs & Hge).
  assert (group1 before idm = w0) as ->.
  { unfold group1, slice. rewrite Hgs, Hge.
    replace (r_start idm + 4 + length w0 - (r_start idm + 4)) with (length w0) by lia.
    rewrite <- drop_drop, Hd. simpl. apply take_app_length. }
  exists (take (r_start idm) before), t. split.
  - rewrite <- (take_drop (r_start idm) before) at 1. by rewrite Hd.
  - intros a' w b' Hdec Hwne Hww. rewrite length_take.
    destruct (decide (length a' < r_start idm)) as [Hlt|]; [|lia]. exfalso.
    assert (match_at resource_id_pattern (drop (length a') before) 0 = None) as Hnone
      by (eapply (search_from_first _ _ 0); [exact Hs|simpl; lia]).
    rewrite Hdec, drop_app_length in Hnone.
    by apply match_resource_id_complete in Hnone.
Qed.

Lemma resource_id_is_first_binding_witness :
  let content := add_import Samples.foo_file in
  let f := Fragment (nl ++ str "        ") 326 374 (str "foo_id") (str "AWS::Foo::Bar") in
  let before := slice 51 (tags_line_start f) content in
  exists a b,
    before = a ++ str "let " ++ resource_id_var f ++ str " = raw_response" ++ b
    /\ forall a' w b',
         before = a' ++ str "let " ++ w ++ str " = raw_response" ++ b' ->
         w <> [] -> forallb is_word w = true -> length a <= length a'.
Proof.
  apply (resource_id_is_first_binding (add_import Samples.foo_file) 51
           (Fragment (nl ++ str "        ") 326 374 (str "foo_id") (str "AWS::Foo::Bar"))).
  vm_compute. reflexivity.
Defined.

(** ** Bounds and what a late error leaves behind *)

Lemma async_tags_code_longer ind rt rid :
  length (ind ++ tags_statement) < length (async_tags_code ind rt rid).
Proof.
  unfold async_tags_code. rewrite !length_app.
  change (length tags_statement) with 39. simpl. lia.
Qed.

(** X11: for a match whose header stands at its recorded offset, the span
    replaced by the fetch lies after the header and inside the window and
    the buffer, and the rewrite makes the buffer longer. *)
Theorem tag_statement_span_bounds (content : text) (m : impl_match) (f : fragment) :
  header_at content m ->
  extract content (start_pos m) = inr f ->
  header_stop m <= tags_line_start f
  /\ tags_line_start f < tags_line_end f
  /\ tags_line_end f <= start_pos m + window
  /\ tags_line_end f <= length content
  /\ length content < length (rewrite_tags content f).
Proof.
  intros Hh He. pose proof (tags_after_header _ _ _ Hh He) as Hts.
  destruct (extract_fragment _ _ _ He) as (_ & _ & _ & Hwin & Hte & Hspan & _).
  pose proof (async_tags_code_longer (indent f) (resource_type f) (resource_id_var f)) as HT.
  assert (tags_line_end f <= length content) as Hlen.
  { apply (f_equal length) in Hspan. unfold slice in Hspan.
    rewrite length_take, length_drop in Hspan. rewrite length_app in *.
    change (length tags_statement) with 39 in *. lia. }
  rewrite length_app in Hte. change (length tags_statement) with 39 in Hte.
  split_and!; try done; try lia.
  unfold rewrite_tags. rewrite !length_app, length_take, length_drop.
  rewrite length_app in HT. change (length tags_statement) with 39 in HT. lia.
Qed.

Lemma tag_statement_span_bounds_witness :
  let content := add_import Samples.foo_file in
  let m := ImplMatch (str "FooNormalizer") 51 in
  let f := Fragment (nl ++ str "        ") 326 374 (str "foo_id") (str "AWS::Foo::Bar") in
  header_stop m <= tags_line_start f
  /\ tags_line_start f < tags_line_end f
  /\ tags_line_end f <= start_pos m + window
  /\ tags_line_end f <= length content
  /\ length content < length (rewrite_tags content f).
Proof.
  apply (tag_statement_span_bounds (add_import Samples.foo_file)
           (ImplMatch (str "FooNormalizer") 51)
           (Fragment (nl ++ str "        ") 326 374 (str "foo_id") (str "AWS::Foo::Bar"))).
  - split; vm_compute; reflexivity.
  - vm_compute. reflexivity.
Defined.

(** X12: an iteration that ends with one of the two error messages has
    already replaced the tag extraction statement: the buffer it leaves is
    the rewritten one, it differs from the buffer it received, and it is
    longer. *)
Theorem late_error_leaves_rewrite (content content' : text) (m : impl_match) (o : outcome) :
  process_match content m = (content', o) ->
  o = LostTrack \/ o = NoImplEnd ->
  exists f, extract content (start_pos m) = inr f
    /\ content' = rewrite_tags content f
    /\ content' <> content
    /\ length content < length content'.
Proof.
  unfold process_match. intros Hp Ho.
  destruct (extract content (start_pos m)) as [skip|f] eqn:He.
  { injection Hp as <- <-. apply extract_inl in He. by destruct Ho as [->| ->]. }
  assert (length content < length (rewrite_tags content f)) as Hlen.
  { destruct (extract_fragment _ _ _ He) as (_ & _ & _ & _ & Hte & Hspan & _).
    pose proof (async_tags_code_longer (indent f) (resource_type f) (resource_id_var f)) as HT.
    apply (f_equal length) in Hspan. unfold slice in Hspan.
    rewrite length_take, length_drop in Hspan.
    unfold rewrite_tags. rewrite !length_app, length_take, length_drop.
    rewrite length_app in *. change (length tags_statement) with 39 in *. lia. }
  assert (exists f0, inr f = inr (A:=outcome) f0 /\ rewrite_tags content f = rewrite_tags content f0
            /\ rewrite_tags content f <> content
            /\ length content < length (rewrite_tags content f)) as Hres.
  { exists f. split_and!; try done. intros E. rewrite E in Hlen. lia. }
  destruct (find _ _) as [ins|]; [|by injection Hp as <- <-].
  destruct (find_impl_end _ _) as [stop|]; [|by injection Hp as <- <-].
  injection Hp as <- <-. by destruct Ho.
Qed.

Lemma late_error_leaves_rewrite_witness :
  exists f, extract (add_import Samples.open_file) 51 = inr f
    /\ (process_match (add_import Samples.open_file)
          (ImplMatch (str "FooNormalizer") 51)).1
       = rewrite_tags (add_import Samples.open_file) f
    /\ (process_match (add_import Samples.open_file)
          (ImplMatch (str "FooNormalizer") 51)).1
       <> add_import Samples.open_file
    /\ length (add_import Samples.open_file)
       < length (process_match (add_import Samples.open_file)
                   (ImplMatch (str "FooNormalizer") 51)).1.
Proof.
  apply (late_error_leaves_rewrite (add_import Samples.open_file) _
           (ImplMatch (str "FooNormalizer") 51) NoImplEnd).
  - vm_compute. reflexivity.
  - by right.
Defined.

(** ** Runs compose *)

Lemma main_loop_from paths st1 st2 :
  disk st1 = disk st2 ->
  disk (main_loop paths st1) = disk (main_loop paths st2)
  /\ migrated_count (main_loop paths st1) + migrated_count st2
     = migrated_count (main_loop paths st2) + migrated_count st1.
Proof.
  revert st1 st2. induction paths as [|p paths IH]; intros st1 st2 Hd; simpl.
  - split; [done|lia].
  - rewrite Hd. destruct (disk st2 !! p) as [c|].
    + match goal with
      | |- disk (main_loop _ ?a) = disk (main_loop _ ?b) /\ _ =>
          destruct (IH a b) as [-> E]; [done|]
      end.
      split; [done|]. simpl in E. destruct (returned _); lia.
    + match goal with
      | |- disk (main_loop _ ?a) = disk (main_loop _ ?b) /\ _ =>
          destruct (IH a b) as [-> E]; [done|]
      end.
      split; [done|]. simpl in E. lia.
Qed.

(** X13: one invocation on two lists of files in a row leaves the disk that
    two invocations, the second on the disk of the first, leave, and its
    count of migrated files is the sum of theirs. *)
Theorem invocations_compose (script p q : string) (ps qs : list string) (fs : files) :
  let both := main (script :: (p :: ps) ++ (q :: qs)) fs in
  let first := main (script :: p :: ps) fs in
  let second := main (script :: q :: qs) (final_disk first) in
  final_disk both = final_disk second
  /\ files_migrated both = files_migrated first + files_migrated second.
Proof.
  cbv zeta. cbn [main final_disk files_migrated app].
  change (p :: ps ++ q :: qs) with ((p :: ps) ++ (q :: qs)).
  rewrite main_loop_app.
  set (st := main_loop (p :: ps) (MainState fs 0 [])).
  destruct (main_loop_from (q :: qs) st (MainState (disk st) 0 [])) as [-> E]; [done|].
  split; [done|]. cbn [migrated_count] in E. lia.
Qed.

Lemma word_not_brace c : is_word c = true -> is_open_brace c = false.
Proof. destruct c as [[] [] [] [] [] [] [] []]; vm_compute; congruence. Qed.

(** ** What a migrated iteration leaves at the recorded offset *)

Lemma count_chars_app p (s t : text) :
  count_chars p (s ++ t) = count_chars p s + count_chars p t.
Proof. induction s as [|c s IH]; simpl; [done|]. rewrite IH. lia. Qed.

Lemma count_chars_take p (s : text) n : count_chars p (take n s) <= count_chars p s.
Proof.
  revert n. induction s as [|c s IH]; intros [|n]; simpl; try lia.
  specialize (IH n). lia.
Qed.

Lemma count_chars_none p (s : text) :
  (forall c, c ∈ s -> p c = false) -> count_chars p s = 0.
Proof.
  induction s as [|c s IH]; intros H; simpl; [done|].
  rewrite (H c) by apply list_elem_of_here. simpl. apply IH.
  intros d Hd. apply H. by apply elem_of_cons; right.
Qed.

(** A header holds no brace before its own. *)
Lemma header_no_brace name :
  forallb is_word name = true ->
  count_chars is_open_brace (impl_header name ++ str " ") = 0.
Proof.
  intros Hname. unfold impl_header. rewrite !count_chars_app.
  rewrite (count_chars_none _ name).
  - reflexivity.
  - intros c Hc. apply word_not_brace.
    rewrite forallb_forall in Hname. apply Hname. by apply list_elem_of_In.
Qed.

(** The signature does not start inside an asynchronous header. *)
Lemma signature_not_in_prefix (Y t : text) k :
  k < 48 ->
  drop k (str "#[async_trait]" ++ nl ++ str "impl AsyncResourceNormalizer for " ++ Y)
  <> normalize_open ++ t.
Proof.
  intros Hk H. unfold normalize_open in H.
  do 48 (destruct k as [|k]; [simpl in H; discriminate H|]). lia.
Qed.

Lemma signature_not_in_name name rest t k :
  forallb is_word name = true -> k < length name + 2 ->
  drop k (name ++ str " {" ++ rest) <> normalize_open ++ t.
Proof.
  intros Hname. revert k. induction name as [|a name IH]; intros k Hk H.
  - destruct k as [|[|k]]; [| |simpl in Hk; lia]; simpl in H; discriminate H.
  - apply andb_prop in Hname as [Ha Hname]. destruct k as [|k].
    + simpl in H. unfold normalize_open in H. simpl in H. injection H as -> H.
      destruct name as [|b name]; [simpl in H; discriminate H|].
      simpl in H. injection H as -> H.
      destruct name as [|c name]; [simpl in H; discriminate H|].
      simpl in H. injection H as -> H. simpl in Hname. by vm_compute in Hname.
    + simpl in H. apply (IH Hname k); [simpl in Hk; lia|done].
Qed.

Lemma signature_not_in_header name rest t k :
  forallb is_word name = true -> k < length (async_header name) + 2 ->
  drop k (async_header name ++ str " {" ++ rest) <> normalize_open ++ t.
Proof.
  intros Hname Hk H. unfold async_header in *. rewrite <- !app_assoc in H.
  rewrite !length_app in Hk.
  change (length (str "#[async_trait]") + (length nl
          + (length (str "impl AsyncResourceNormalizer for ") + length name)))
    with (48 + length name) in Hk.
  destruct (decide (k < 48)) as [Hlt|Hge]; [by eapply signature_not_in_prefix|].
  assert (drop k (str "#[async_trait]" ++ nl ++ str "impl AsyncResourceNormalizer for "
                  ++ name ++ str " {" ++ rest)
          = drop (k - 48) (name ++ str " {" ++ rest)) as E.
  { rewrite !app_assoc. rewrite <- (app_assoc _ name), <- (app_assoc _ (name ++ _)).
    rewrite <- !app_assoc.
    rewrite (app_assoc (str "#[async_trait]")), (app_assoc (_ ++ nl)).
    rewrite drop_app_ge by (simpl; lia). f_equal. }
  rewrite E in H. eapply signature_not_in_name; [done| |exact H]. lia.
Qed.

(** [re.sub] copies the text in front of the first place where the pattern
    can match. *)
Lemma sub_from_keeps r repl (s : text) n :
  (forall k, k < n -> match_at r (drop k s) 0 = None) -> n <= length s ->
  sub_from r repl s 0 = take n s ++ sub_from r repl (drop n s) 0.
Proof.
  revert s. induction n as [|n IH]; intros s Hno Hn; [done|].
  destruct s as [|c s]; [simpl in Hn; lia|].
  pose proof (Hno 0 ltac:(lia)) as H0. simpl in H0.
  cbn [sub_from take drop app]. rewrite H0. f_equal.
  apply IH; [|simpl in Hn; lia]. intros k Hk. apply (Hno (S k)). lia.
Qed.

(** [replace] copies the text in front of the first occurrence. *)
Lemma replace_all_keeps old new (s : text) n :
  old <> [] -> (forall k, k < n -> starts_with old (drop k s) = false) ->
  n <= length s ->
  replace_all old new s = take n s ++ replace_all old new (drop n s).
Proof.
  intros Hne. unfold replace_all. destruct old as [|a old]; [done|]. clear Hne.
  revert s. induction n as [|n IH]; intros s Hno Hn; [done|].
  destruct s as [|c s]; [simpl in Hn; lia|].
  rewrite replace_skip_miss by apply (Hno 0 ltac:(lia)). cbn [take drop app]. f_equal.
  apply IH; [|simpl in Hn; lia]. intros k Hk. apply (Hno (S k)). lia.
Qed.

Lemma comment_not_in_prefix (Y : text) j w t :
  j < 27 -> w <> [] -> forallb is_space w = true ->
  drop j (str "impl ResourceNormalizer for " ++ Y) = w ++ fetch_comment ++ t -> False.
Proof.
  intros Hj Hne Hw H. unfold fetch_comment in H.
  do 27 (destruct j as [|j]; [simpl in H; comment_run H Hw w|]). lia.
Qed.

Lemma comment_not_in_name name rest j w t :
  forallb is_word name = true -> w <> [] -> forallb is_space w = true ->
  drop j (name ++ str " {" ++ rest) = w ++ fetch_comment ++ t ->
  length name + 2 <= j.
Proof.
  intros Hname Hne Hw. unfold fetch_comment. revert j.
  induction name as [|a name IH]; intros j H.
  - destruct j as [|[|j]]; [| |simpl; lia].
    + simpl in H. comment_run H Hw w.
    + simpl in H. destruct w as [|? w]; [done|]. peel_space H Hw w.
  - apply andb_prop in Hname as [Ha Hname]. destruct j as [|j].
    + simpl in H. destruct w as [|c w]; [done|]. simpl in H. injection H as <- H.
      apply andb_prop in Hw as [Hc _]. by rewrite (word_not_space _ Ha) in Hc.
    + simpl in H. specialize (IH Hname j H). simpl. lia.
Qed.

(** The synthesized statement does not start inside a header. *)
Lemma fetch_not_in_header name rest ind rt rid k :
  forallb is_word name = true -> ind <> [] -> forallb is_space ind = true ->
  k < length (impl_header name) + 2 ->
  starts_with (async_tags_code ind rt rid)
    (drop k (impl_header name ++ str " {" ++ rest)) = false.
Proof.
  intros Hname Hne Hw Hk.
  destruct (starts_with _ _) eqn:E; [|done]. exfalso.
  apply starts_with_inv in E as [t H].
  unfold async_tags_code in H. rewrite <- !app_assoc in H. fold fetch_comment in H.
  set (t' := nl ++ _) in H.
  unfold impl_header in *. rewrite length_app in Hk.
  change (length (str "impl ResourceNormalizer for ")) with 28 in Hk.
  rewrite <- app_assoc in H.
  destruct (decide (k < 27)) as [Hlt|Hge];
    [by destruct (comment_not_in_prefix _ _ _ _ Hlt Hne Hw H)|].
  destruct (decide (k = 27)) as [->|Hne27].
  - simpl in H. destruct ind as [|c w]; [done|]. peel_space H Hw w.
    destruct w as [|c w].
    + simpl in H. unfold fetch_comment in H.
      destruct name as [|a name]; simpl in H; [discriminate H|].
      injection H as -> H. simpl in Hname. by vm_compute in Hname.
    + pose proof (comment_not_in_name name rest 0 (c :: w) t' Hname ltac:(done) Hw H).
      lia.
  - assert (drop k (str "impl ResourceNormalizer for " ++ name ++ str " {" ++ rest)
            = drop (k - 28) (name ++ str " {" ++ rest)) as E.
    { rewrite <- (drop_app_length (str "impl ResourceNormalizer for ")
                    (name ++ str " {" ++ rest)) at 2.
      rewrite drop_drop. f_equal.
      change (length (str "impl ResourceNormalizer for ")) with 28. lia. }
    rewrite E in H.
    pose proof (comment_not_in_name name rest (k - 28) ind t' Hname Hne Hw H). lia.
Qed.

(** X14: when the header of a match stands at its recorded offset and the
    header text occurs nowhere before it, a migrated iteration leaves at
    that offset the header of the asynchronous implementation,
    [#[async_trait]], a line break, [impl AsyncResourceNormalizer for <name> {];
    and after the copy, the blank line and the banner comes the retained
    block, which still starts with the synchronous header. *)
Theorem migrated_iteration_headers (content content' : text) (m : impl_match) :
  header_at content m ->
  (forall k, k < start_pos m ->
     starts_with (impl_header (normalizer_name m)) (drop k content) = false) ->
  process_match content m = (content', Migrated) ->
  starts_with (async_header (normalizer_name m) ++ str " {")
    (drop (start_pos m) content') = true
  /\ exists async_impl retained rest,
       drop (start_pos m) content'
       = async_impl ++ nl ++ nl ++ sync_impl_comment ++ retained ++ rest
       /\ starts_with (impl_header (normalizer_name m) ++ str " {") retained = true.
Proof.
  intros Hh Hfirst Hp.
  destruct (process_match_frame _ _ _ _ Hh Hfirst Hp) as (_ & _ & Hmig).
  destruct (Hmig eq_refl) as (f & stop & He & Hs & ->). clear Hmig.
  pose proof (tags_after_header _ _ _ Hh He) as Hts.
  destruct (rewrite_tags_prefix _ _ _ He) as [Hpre Hlen].
  destruct (extract_fragment _ _ _ He) as (Hind & Hsp & _).
  destruct Hh as [Hh Hname].
  set (name := normalizer_name m) in *. set (h := impl_header name) in *.
  set (buffer := rewrite_tags content f) in *.
  set (blk := slice (start_pos m) stop buffer).
  assert (header_stop m = start_pos m + length (h ++ str " {")) as Hstop
    by (unfold header_stop, h, name; rewrite length_app; simpl; lia).
  (* the block starts with the header *)
  assert (starts_with (h ++ str " {") (drop (start_pos m) buffer) = true) as Hhb.
  { etrans; [|exact Hh]. eapply starts_with_agree; [|exact Hpre]. lia. }
  apply starts_with_inv in Hhb as [rest0 Hrest0].
  destruct (find_impl_end_spec _ _ _ Hs) as (Hrange & _ & Hopen & _).
  assert (length (h ++ str " {") <= stop - start_pos m) as Hlong.
  { destruct (decide (length (h ++ str " {") <= stop - start_pos m)) as [|Hshort]; [done|].
    exfalso. unfold slice in Hopen. rewrite Hrest0 in Hopen.
    assert (take (stop - start_pos m) ((h ++ str " {") ++ rest0)
            = take (stop - start_pos m) (h ++ str " ")) as E.
    { rewrite take_app_le by lia.
      replace (h ++ str " {") with ((h ++ str " ") ++ str "{") by (by rewrite <- app_assoc).
      rewrite take_app_le; [done|]. rewrite !length_app in *. simpl in *. lia. }
    rewrite E in Hopen.
    pose proof (count_chars_take is_open_brace (h ++ str " ") (stop - start_pos m)).
    pose proof (header_no_brace name Hname). fold h in H0. lia. }
  assert (exists rest1, blk = (h ++ str " {") ++ rest1) as [rest1 Hblk].
  { exists (take (stop - start_pos m - length (h ++ str " {")) rest0).
    unfold blk, slice. rewrite Hrest0. by rewrite take_app_ge. }
  assert (length (take (start_pos m) content) = start_pos m) as Hl
    by (rewrite length_take; lia).
  rewrite drop_app_length' by done.
  assert (starts_with (async_header name ++ str " {") (make_async_impl name blk) = true)
    as Hasync.
  { unfold make_async_impl. fold h.
    assert (replace_first h (async_header name) blk
            = async_header name ++ str " {" ++ rest1) as ->.
    { unfold replace_first.
      destruct (find_le h blk 0) as (i & -> & Hi).
      { rewrite drop_0, Hblk, <- app_assoc. apply starts_with_app. }
      assert (i = 0) as -> by lia. rewrite take_0, Nat.add_0_l, app_nil_l.
      rewrite Hblk, <- app_assoc. by rewrite drop_app_length. }
    unfold re_sub.
    rewrite (sub_from_keeps _ _ _ (length (async_header name) + 2)).
    - rewrite app_assoc. rewrite take_app_length' by (rewrite length_app; simpl; lia).
      apply starts_with_app.
    - intros k Hk. unfold match_at, signature_pattern, normalize_params.
      cbn [app mtch].
      destruct (strip_prefix (str "fn normalize(") _) as [t|] eqn:E; [|done].
      apply strip_prefix_inv in E. by apply signature_not_in_header in E.
    - rewrite !length_app. simpl. lia. }
  split.
  - apply starts_with_inv in Hasync as [t Ht]. unfold compose. fold blk.
    rewrite Ht, <- !app_assoc. rewrite app_assoc. apply starts_with_app.
  - exists (make_async_impl name blk), (make_sync_impl f blk), (drop stop buffer).
    split; [unfold compose; by rewrite <- !app_assoc|].
    unfold make_sync_impl.
    rewrite (replace_all_keeps _ _ _ (length (h ++ str " {"))).
    + rewrite Hblk, take_app_length. apply starts_with_app.
    + unfold async_tags_code. by destruct (indent f).
    + intros k Hk. rewrite Hblk, <- app_assoc.
      rewrite length_app in Hk. change (length (str " {")) with 2 in Hk.
      unfold h in *. by apply fetch_not_in_header.
    + rewrite Hblk, !length_app. lia.
Qed.

Lemma migrated_iteration_headers_witness :
  starts_with (async_header (str "FooNormalizer") ++ str " {")
    (drop 51 (process_match (add_import Samples.foo_file)
                (ImplMatch (str "FooNormalizer") 51)).1) = true.
Proof.
  destruct (migrated_iteration_headers (add_import Samples.foo_file)
              (process_match (add_import Samples.foo_file)
                 (ImplMatch (str "FooNormalizer") 51)).1
              (ImplMatch (str "FooNormalizer") 51)) as [H _].
  - split; vm_compute; reflexivity.
  - intros k Hk. cbn [start_pos] in Hk.
    assert (find (impl_header (str "FooNormalizer")) (add_import Samples.foo_file)
            = Some 51) as Hf by (vm_compute; reflexivity).
    destruct (find_Some _ _ _ Hf) as (_ & _ & Hmin). by apply Hmin.
  - vm_compute. reflexivity.
  - exact H.
Defined.

(** * The synthesized statement *)

(** ** The type tag is the first literal of the window *)

Lemma match_resource_type_complete ws w t pos :
  forallb is_space ws = true -> w <> [] -> forallb not_dq w = true ->
  match_at resource_type_pattern (resource_type_open ++ ws ++ dq ++ w ++ dq ++ t) pos
  <> None.
Proof.
  intros Hws Hne Hw. unfold match_at, resource_type_pattern, resource_type_open.
  cbn [mtch]. rewrite strip_prefix_app. apply star_complete; [done|].
  cbn [mtch]. rewrite strip_prefix_app.
  destruct w as [|c w]; [done|]. simpl in Hw. apply andb_prop in Hw as [Hc Hw].
  cbn [app]. rewrite Hc. apply star_complete; [done|].
  cbn [mtch]. by rewrite strip_prefix_app.
Qed.

(** What the fourth search of [extract] hands over: the literal of the
    leftmost accessor of the window. *)
Lemma extract_type_first content start f :
  extract content start = inr f ->
  let section := impl_section content start in
  exists pre ws post,
    section = pre ++ resource_type_open ++ ws ++ dq ++ resource_type f ++ dq ++ post
    /\ forallb is_space ws = true
    /\ forall k ws' w t,
         k < length pre -> forallb is_space ws' = true -> w <> [] ->
         forallb not_dq w = true ->
         drop k section <> resource_type_open ++ ws' ++ dq ++ w ++ dq ++ t.
Proof.
  unfold extract. intros H. set (section := impl_section content start) in *.
  destruct (search normalize_pattern section) as [nm|]; [|done].
  destruct (search tags_pattern section) as [tm|]; [|done].
  destruct (finditer resource_id_pattern _) as [|idm ids]; [done|].
  destruct (search resource_type_pattern section) as [ym|] eqn:Hy; [|done].
  injection H as <-. cbn [resource_type].
  destruct (search_sound _ _ _ Hy) as [Hl Hm].
  apply match_resource_type in Hm as (ws & w & t & Hd & Hws & Hne & Hw & Hgs & Hge).
  assert (group1 section ym = w) as ->.
  { unfold group1, slice. rewrite Hgs, Hge.
    match goal with |- take ?n _ = _ => replace n with (length w) by lia end.
    replace (r_start ym + length resource_type_open + length ws + 1)
      with (r_start ym + (length resource_type_open + (length ws + 1))) by lia.
    rewrite <- !drop_drop, Hd, drop_app_length, drop_app_length. simpl.
    apply take_app_length. }
  exists (take (r_start ym) section), ws, t. split_and!; [|done|].
  - by rewrite <- Hd, take_drop.
  - intros k ws' w' t' Hk Hws' Hne' Hw' Heq.
    rewrite length_take in Hk.
    assert (match_at resource_type_pattern (drop k section) 0 = None) as Hnone
      by (apply (search_from_first _ _ 0 ym); [done|lia]).
    rewrite Heq in Hnone. by apply match_resource_type_complete in Hnone.
Qed.

(** ** The signature substitution spares the synthesized statement *)

Lemma space_not_slash (w : text) : forallb is_space w = true -> "/"%char ∉ w.
Proof.
  induction w as [|c w IH]; simpl; [intros _; apply not_elem_of_nil|].
  intros [Hc Hw]%andb_prop. apply not_elem_of_cons. split; [|by apply IH].
  intros <-. by vm_compute in Hc.
Qed.

(** The text a match of the signature pattern covers. *)
Lemma match_signature s res :
  match_at signature_pattern s 0 = Some res ->
  exists M rest,
    s = normalize_open ++ M ++ str ")" ++ rest
    /\ m_stop res = length (normalize_open ++ M ++ str ")")
    /\ "/"%char ∉ M.
Proof.
  unfold match_at, signature_pattern, normalize_params, normalize_open. cbn [app].
  intros (t0 & -> & H)%mtch_lit.
  apply mtch_star in H as (w1 & t1 & -> & Hw1 & H).
  apply mtch_lit in H as (t2 & -> & H).
  apply mtch_star in H as (w2 & t3 & -> & Hw2 & H).
  apply mtch_lit in H as (t4 & -> & H).
  apply mtch_star in H as (w3 & t5 & -> & Hw3 & H).
  apply mtch_lit in H as (t6 & -> & H).
  apply mtch_star in H as (w4 & t7 & -> & Hw4 & H).
  apply mtch_lit in H as (t8 & -> & H).
  apply mtch_star in H as (w5 & t9 & -> & Hw5 & H).
  apply mtch_lit in H as (t10 & -> & H).
  apply mtch_star in H as (w6 & t11 & -> & Hw6 & H).
  apply mtch_lit in H as (t12 & -> & ->%mtch_nil).
  exists (w1 ++ str "&self," ++ w2 ++ str "raw_response: serde_json::Value," ++ w3
          ++ str "account: &str," ++ w4 ++ str "region: &str," ++ w5
          ++ str "query_timestamp: DateTime<Utc>," ++ w6), t12.
  split_and!.
  - by rewrite <- !app_assoc.
  - cbn [m_stop]. rewrite !length_app. lia.
  - rewrite !not_elem_of_app.
    split_and!; try (by apply space_not_slash); no_slash_lit.
Qed.

(** [re.sub] copies a span that no match starts in or runs into. *)
Lemma sub_from_keeps_span r repl (u T v : text) skip :
  (forall k res, k < length u ->
     match_at r (drop k (u ++ T ++ v)) 0 = Some res -> k + m_stop res <= length u) ->
  (forall k, k < length T -> match_at r (drop k (T ++ v)) 0 = None) ->
  skip <= length u ->
  exists u' v', sub_from r repl (u ++ T ++ v) skip = u' ++ T ++ v'.
Proof.
  intros Hin Hno. revert skip Hin.
  induction u as [|c u IH]; intros skip Hin Hskip.
  - simpl in Hskip. assert (skip = 0) as -> by lia.
    exists [], (sub_from r repl v 0). cbn [app].
    rewrite (sub_from_keeps _ _ _ (length T)).
    + by rewrite take_app_length, drop_app_length.
    + done.
    + rewrite length_app. lia.
  - assert (forall k res, k < length u ->
              match_at r (drop k (u ++ T ++ v)) 0 = Some res ->
              k + m_stop res <= length u) as Hin'.
    { intros k res Hk Hm. specialize (Hin (S k) res). simpl in Hin.
      specialize (Hin ltac:(lia) Hm). lia. }
    cbn [app sub_from]. destruct skip as [|skip].
    + destruct (match_at r (c :: u ++ T ++ v) 0) as [res|] eqn:E.
      * pose proof (Hin 0 res ltac:(simpl; lia) E) as Hstop. simpl in Hstop.
        destruct (IH (m_stop res - 1) Hin' ltac:(lia)) as (u' & v' & ->).
        exists (repl ++ u'), v'. by rewrite <- app_assoc.
      * destruct (IH 0 Hin' ltac:(lia)) as (u' & v' & ->). by exists (c :: u'), v'.
    + simpl in Hskip. destruct (IH skip Hin' ltac:(lia)) as (u' & v' & ->).
      by exists u', v'.
Qed.

(** A text that opens with blanks and a slash, ends with a semicolon and
    does not hold [fn normalize(] is out of reach of the signature pattern,
    whatever stands around it. *)
Lemma signature_spares (u v ind T1 T0 : text) :
  let T := ind ++ "/"%char :: T1 in
  ind <> [] -> forallb is_space ind = true ->
  T = T0 ++ [";"%char] ->
  contains normalize_open T = false ->
  (forall k res, k < length u ->
     match_at signature_pattern (drop k (u ++ T ++ v)) 0 = Some res ->
     k + m_stop res <= length u)
  /\ (forall k, k < length T -> match_at signature_pattern (drop k (T ++ v)) 0 = None).
Proof.
  intros T Hne Hsp Hend Hno. split.
  - intros k res Hk Hm.
    destruct (decide (k + m_stop res <= length u)) as [|Hover]; [done|]. exfalso.
    apply match_signature in Hm as (M & rest & Hd & Hstop & Hslash).
    rewrite drop_app_le in Hd by lia.
    set (F := normalize_open ++ M) in *.
    assert (drop k u ++ T ++ v = (F ++ str ")") ++ rest) as Hd'
      by (rewrite Hd; unfold F; by rewrite <- !app_assoc).
    assert (m_stop res = length (F ++ str ")")) as Hlen
      by (rewrite Hstop; unfold F; by rewrite <- !app_assoc).
    assert ("/"%char ∉ F) as HF.
    { unfold F. rewrite not_elem_of_app. split; [|done]. unfold normalize_open.
      no_slash_lit. }
    assert (length (drop k u) < length (F ++ str ")")) as Hshort
      by (rewrite length_drop; lia).
    apply app_eq_inv in Hd' as [(x & Hx & _)|(x & Hx & Hrest)].
    { apply (f_equal length) in Hx. rewrite length_app in Hx. lia. }
    (* the match covers a non-empty prefix [x] of the statement *)
    assert (x <> []) as Hxne.
    { intros ->. rewrite app_nil_r in Hx. rewrite Hx in Hshort. lia. }
    unfold T in Hrest. rewrite <- app_assoc in Hrest.
    apply app_eq_inv in Hrest as [(y & Hy & _)|(y & Hy & Hrest)].
    + (* [x] lies within the blanks: the match would end with a blank *)
      assert (last (F ++ str ")") = Some ")"%char) as Hlast by apply last_snoc.
      rewrite Hx in Hlast. rewrite last_app in Hlast.
      destruct (last x) as [c|] eqn:Hlx; [|by apply last_None in Hlx].
      injection Hlast as ->. apply last_Some in Hlx as (x' & ->).
      rewrite Hy, <- app_assoc in Hsp. rewrite !forallb_app in Hsp.
      apply andb_prop in Hsp as [_ Hsp]. apply andb_prop in Hsp as [Hsp _].
      by vm_compute in Hsp.
    + (* [x] reaches the slash *)
      destruct y as [|c y].
      * rewrite app_nil_r in Hy. subst x.
        assert (last (F ++ str ")") = Some ")"%char) as Hlast by apply last_snoc.
        rewrite Hx, last_app in Hlast.
        destruct (last ind) as [c|] eqn:Hli; [|by apply last_None in Hli].
        injection Hlast as ->. apply last_Some in Hli as (i' & ->).
        rewrite forallb_app in Hsp. apply andb_prop in Hsp as [_ Hsp].
        by vm_compute in Hsp.
      * injection Hrest as <- _.
        assert ("/"%char ∈ F ++ str ")") as Hin.
        { rewrite Hx, Hy. rewrite !elem_of_app. right. right. apply list_elem_of_here. }
        apply elem_of_app in Hin as [Hin|Hin]; [done|].
        apply list_elem_of_singleton in Hin. discriminate Hin.
  - intros k Hk.
    destruct (match_at signature_pattern (drop k (T ++ v)) 0) as [res|] eqn:Hm; [|done].
    exfalso. apply match_signature in Hm as (M & rest & Hd & _).
    assert (k <= length T0) as Hk0.
    { rewrite Hend, length_app in Hk. simpl in Hk. lia. }
    rewrite Hend, <- app_assoc, drop_app_le in Hd by done.
    assert (occurs normalize_open T) as Hocc; [|by apply contains_occurs in Hocc; congruence].
    apply app_eq_inv in Hd as [(x & Hx & _)|(x & Hx & Hrest)].
    + exists (take k T0), (x ++ [";"%char]).
      rewrite Hend, <- (take_drop k T0) at 1. rewrite Hx. by rewrite <- !app_assoc.
    + destruct x as [|c x].
      * rewrite app_nil_r in Hx. exists (take k T0), [";"%char].
        rewrite Hend, <- (take_drop k T0) at 1. rewrite <- Hx. by rewrite <- !app_assoc.
      * injection Hrest as <- _.
        assert (";"%char ∈ normalize_open) as Hin.
        { rewrite Hx. rewrite elem_of_app. right. apply list_elem_of_here. }
        unfold normalize_open in Hin.
        repeat (apply elem_of_cons in Hin as [Hin|Hin]; [discriminate Hin|]).
        by apply elem_of_nil in Hin.
Qed.

(** The synthesized statement opens with its indent and a comment and
    ends with a semicolon. *)
Lemma async_tags_code_ends ind rt rid :
  exists T1 T0,
    async_tags_code ind rt rid = ind ++ "/"%char :: T1
    /\ async_tags_code ind rt rid = T0 ++ [";"%char].
Proof.
  unfold async_tags_code. eexists. 
  exists (ind ++ str "// Fetch tags asynchronously from AWS API with caching" ++ nl
    ++ ind ++ str "let tags = aws_client" ++ nl
    ++ ind ++ str "    .fetch_tags_for_resource(" ++ dq ++ rt ++ dq
       ++ str ", &" ++ rid ++ str ", account, region)" ++ nl
    ++ ind ++ str "    .await" ++ nl
    ++ ind ++ str "    .unwrap_or_else(|e| {" ++ nl
    ++ ind ++ str "        tracing::warn!(" ++ dq ++ str "Failed to fetch tags for "
       ++ rt ++ str " {}: {}" ++ dq ++ str ", " ++ rid
       ++ str ", e);" ++ nl
    ++ ind ++ str "        Vec::new()" ++ nl
    ++ ind ++ str "    })").
  split; [reflexivity|]. rewrite <- !app_assoc. reflexivity.
Qed.

(** A part of a text cut around a span of it. *)
Lemma slice_mid (x T y : text) a b :
  a <= length x -> length x + length T <= b ->
  slice a b (x ++ T ++ y) = drop a x ++ T ++ take (b - length x - length T) y.
Proof.
  intros Ha Hb. unfold slice. rewrite drop_app_le by done.
  rewrite take_app_ge by (rewrite length_drop; lia).
  rewrite take_app_ge by (rewrite length_drop; lia).
  do 3 f_equal. rewrite length_drop. lia.
Qed.

(** After the rewrite the header text is still found first at the match. *)
Lemma find_header_after_rewrite content m f :
  header_at content m ->
  (forall k, k < start_pos m ->
     starts_with (impl_header (normalizer_name m)) (drop k content) = false) ->
  extract content (start_pos m) = inr f ->
  find (impl_header (normalizer_name m)) (rewrite_tags content f) = Some (start_pos m).
Proof.
  intros Hh Hfirst He.
  pose proof (tags_after_header _ _ _ Hh He) as Hts.
  destruct (rewrite_tags_prefix _ _ _ He) as [Hpre Hlen].
  set (h := impl_header (normalizer_name m)) in *.
  set (buffer := rewrite_tags content f) in *.
  unfold header_stop in Hts. fold h in Hts.
  assert (forall k, k + length h <= tags_line_start f ->
            starts_with h (drop k buffer) = starts_with h (drop k content)) as Hsame
    by (intros k Hk; by eapply starts_with_agree).
  destruct Hh as [Hh _]. apply starts_with_inv in Hh as [rest Hrest].
  assert (starts_with h (drop (start_pos m) content) = true) as Hat
    by (fold h in Hrest; rewrite Hrest, <- app_assoc; apply starts_with_app).
  rewrite <- Hsame in Hat by lia.
  destruct (find_le _ _ _ Hat) as (ins & Hins & Hle). rewrite Hins. f_equal.
  destruct (decide (ins = start_pos m)) as [|Hne]; [done|].
  destruct (find_Some _ _ _ Hins) as (_ & Hthere & _).
  rewrite Hsame, Hfirst in Hthere by lia. done.
Qed.

(** The asynchronous copy of a block that holds the synthesized statement
    holds it too: the header is exchanged in front of it and the signature
    substitution does not reach it. *)
Lemma async_copy_holds_fetch content m f stop :
  let fetch := async_tags_code (indent f) (resource_type f) (resource_id_var f) in
  header_at content m ->
  extract content (start_pos m) = inr f ->
  contains normalize_open fetch = false ->
  tags_line_start f + length fetch <= stop ->
  exists u v,
    make_async_impl (normalizer_name m)
      (slice (start_pos m) stop (rewrite_tags content f))
    = u ++ fetch ++ v.
Proof.
  intros fetch Hh He Hno Hstop.
  pose proof (tags_after_header _ _ _ Hh He) as Hts.
  destruct (rewrite_tags_prefix _ _ _ He) as [_ Hlen].
  destruct (extract_fragment _ _ _ He) as (Hind & Hsp & _).
  destruct Hh as [Hh Hname]. unfold header_stop in Hts.
  set (name := normalizer_name m) in *. set (h := impl_header name) in *.
  apply starts_with_inv in Hh as [rest Hrest].
  (* the block, cut around the statement *)
  assert (length (take (tags_line_start f) content) = tags_line_start f) as Hl
    by (rewrite length_take; lia).
  unfold rewrite_tags. fold fetch.
  rewrite slice_mid by lia. rewrite Hl.
  set (q := take _ (drop (tags_line_end f) content)).
  assert (drop (start_pos m) (take (tags_line_start f) content)
          = (h ++ str " {")
            ++ take (tags_line_start f - start_pos m - length (h ++ str " {")) rest)
    as ->.
  { replace (tags_line_start f)
      with (start_pos m + (tags_line_start f - start_pos m)) at 1 by lia.
    rewrite <- take_drop_commute, Hrest.
    rewrite take_app_ge; [done|]. rewrite length_app.
    change (length (str " {")) with 2. lia. }
  set (p := take _ rest).
  (* the header is exchanged *)
  unfold make_async_impl. fold h.
  assert (replace_first h (async_header name) (((h ++ str " {") ++ p) ++ fetch ++ q)
          = (async_header name ++ str " {" ++ p) ++ fetch ++ q) as ->.
  { unfold replace_first.
    destruct (find_le h (((h ++ str " {") ++ p) ++ fetch ++ q) 0) as (i & -> & Hi).
    { rewrite drop_0, <- !app_assoc. apply starts_with_app. }
    assert (i = 0) as -> by lia. rewrite take_0, Nat.add_0_l, app_nil_l.
    rewrite <- !app_assoc. by rewrite drop_app_length. }
  (* the signature substitution passes by *)
  destruct (async_tags_code_ends (indent f) (resource_type f) (resource_id_var f))
    as (T1 & T0 & Hopen & Hend).
  fold fetch in Hopen, Hend.
  destruct (signature_spares (async_header name ++ str " {" ++ p) q
              (indent f) T1 T0 Hind Hsp) as [Hin Hout].
  { by rewrite <- Hopen. }
  { by rewrite <- Hopen. }
  rewrite <- Hopen in Hin, Hout.
  unfold re_sub. apply sub_from_keeps_span; [done|done|lia].
Qed.

(** A text that stands in the asynchronous block stands in the splice. *)
Lemma splice_holds (c' a ma rest u T v : text) :
  ma = u ++ T ++ v -> c' = a ++ ma ++ rest -> exists u' v', c' = u' ++ T ++ v'.
Proof. intros -> ->. exists (a ++ u), (v ++ rest). by rewrite <- !app_assoc. Qed.

(** ** The statement in the content left *)

(** X15: for every migrated match, the span that is replaced is the tag
    extraction statement with its leading whitespace; the text put in its
    place is [let tags = aws_client] followed by the call
    [.fetch_tags_for_resource(<type tag in quotes>, &<identifier>, account,
    region)], [.await] and the recovery clause [.unwrap_or_else(|e| { ... })]
    that logs [tracing::warn!] with the message [Failed to fetch tags for
    <type tag> {}: {}], the identifier and the error, and yields [Vec::new()];
    and the content the iteration leaves is the splice of lines 181-185 over
    the buffer that holds this text.  The type tag is the literal of the
    first [resource_type] accessor of the window of 5000 characters that
    starts at the header of the match; the identifier is a variable bound
    from [raw_response] between the header and the statement.  When the
    header of the match stands at its recorded offset and its text nowhere
    before, the synthesized text lies within the block found and does not
    hold [fn normalize(], the asynchronous block of the content left holds
    the synthesized text. *)
Theorem fetch_replaces_tag_extraction (content content' : text) (m : impl_match) :
  process_match content m = (content', Migrated) ->
  exists f ins stop,
    let fetch := async_tags_code (indent f) (resource_type f) (resource_id_var f) in
    let buffer :=
      take (tags_line_start f) content ++ fetch ++ drop (tags_line_end f) content in
    let original_impl := slice ins stop buffer in
    let section := impl_section content (start_pos m) in
    extract content (start_pos m) = inr f
    /\ slice (tags_line_start f) (tags_line_end f) content = indent f ++ tags_statement
    /\ find (impl_header (normalizer_name m)) buffer = Some ins
    /\ find_impl_end buffer ins = Some stop
    /\ content' = take ins buffer
         ++ make_async_impl (normalizer_name m) original_impl ++ nl ++ nl
         ++ sync_impl_comment ++ make_sync_impl f original_impl
         ++ drop stop buffer
    /\ fetch
       = (indent f ++ str "// Fetch tags asynchronously from AWS API with caching" ++ nl
          ++ indent f ++ str "let tags = aws_client" ++ nl ++ indent f ++ str "    ")
         ++ fetch_call (resource_type f) (resource_id_var f)
         ++ (nl ++ indent f ++ str "    .await" ++ nl ++ indent f ++ str "    ")
         ++ recovery_open
         ++ (nl ++ indent f ++ str "        ")
         ++ warn_call (resource_type f) (resource_id_var f)
         ++ (nl ++ indent f ++ str "        ")
         ++ empty_tags
         ++ (nl ++ indent f ++ str "    });")
    /\ (exists pre ws post,
          section = pre ++ resource_type_open ++ ws ++ dq ++ resource_type f ++ dq ++ post
          /\ forallb is_space ws = true
          /\ forall k ws' w t,
               k < length pre -> forallb is_space ws' = true -> w <> [] ->
               forallb not_dq w = true ->
               drop k section <> resource_type_open ++ ws' ++ dq ++ w ++ dq ++ t)
    /\ occurs (str "let " ++ resource_id_var f ++ str " = raw_response")
         (slice (start_pos m) (tags_line_start f) content)
    /\ (header_at content m ->
        (forall k, k < start_pos m ->
           starts_with (impl_header (normalizer_name m)) (drop k content) = false) ->
        contains normalize_open fetch = false ->
        tags_line_start f + length fetch <= stop ->
        ins = start_pos m
        /\ exists u v,
             make_async_impl (normalizer_name m) original_impl = u ++ fetch ++ v).
Proof.
  intros (f & ins & stop & He & Hf & Hs & Hc)%process_match_migrated.
  exists f, ins, stop. cbv zeta.
  destruct (extract_fragment _ _ _ He)
    as (_ & _ & _ & _ & _ & Hspan & _ & _ & Hid & _).
  destruct (extract_type_first _ _ _ He) as (pre & ws & post & Hsec & Hws & Hfirst).
  unfold rewrite_tags in Hf, Hs, Hc.
  split_and!; try done.
  - rewrite Hc. unfold compose. by rewrite <- !app_assoc.
  - unfold async_tags_code, fetch_call, recovery_open, warn_call, empty_tags.
    by rewrite <- !app_assoc.
  - by exists pre, ws, post.
  - intros Hh Hnone Hno Hstop.
    pose proof (find_header_after_rewrite _ _ _ Hh Hnone He) as Hf'.
    unfold rewrite_tags in Hf'. rewrite Hf' in Hf. injection Hf as <-.
    split; [done|]. by apply async_copy_holds_fetch.
Qed.

Lemma fetch_replaces_tag_extraction_witness :
  let content := add_import Samples.foo_file in
  let m := ImplMatch (str "FooNormalizer") 51 in
  let f := Fragment (nl ++ str "        ") 326 374 (str "foo_id") (str "AWS::Foo::Bar") in
  let fetch := async_tags_code (indent f) (resource_type f) (resource_id_var f) in
  exists u v, (process_match content m).1 = u ++ fetch ++ v.
Proof.
  intros content m f0 fetch.
  destruct (fetch_replaces_tag_extraction content (process_match content m).1 m)
    as (f & ins & stop & He & _ & Hf & Hs & Hc & _ & _ & _ & Hcopy).
  { vm_compute. reflexivity. }
  assert (inr f = (inr f0 : outcome + fragment)) as Hf0
    by (rewrite <- He; vm_compute; reflexivity).
  injection Hf0 as ->.
  assert (Some ins = Some 51) as Hi by (rewrite <- Hf; vm_compute; reflexivity).
  injection Hi as ->.
  assert (Some stop = Some 811) as Hst by (rewrite <- Hs; vm_compute; reflexivity).
  injection Hst as ->.
  destruct Hcopy as (_ & u & v & Huv).
  - split; vm_compute; reflexivity.
  - intros k Hk. cbn [start_pos m] in Hk.
    assert (find (impl_header (str "FooNormalizer")) content = Some 51) as Hfc
      by (vm_compute; reflexivity).
    destruct (find_Some _ _ _ Hfc) as (_ & _ & Hmin). by apply Hmin.
  - vm_compute. reflexivity.
  - vm_compute. lia.
  - exact (splice_holds _ _ _ _ _ _ _ Huv Hc).
Defined.

(** ** C6: the type tag handed to the fetch *)

(** C6: the fetch of a migrated block does not always take the type tag of
    that block.  The tag is searched in the window of 5000 characters from
    the header, which runs past the end of the block: a block without a
    [resource_type] accessor that is followed by a block with one is
    migrated, its fetch and its warning carry the tag of the neighbour, and
    the run prints no warning.  The same two blocks in the other order give
    the warning of line 96 and leave the block without accessor alone. *)
Theorem fetch_takes_type_of_later_block :
  let content := add_import Samples.bar_foo_file in
  let m := ImplMatch (str "BarNormalizer") 51 in
  m ∈ locate content
  /\ find_impl_end content 51 = Some 414
  /\ contains resource_type_open (slice 51 414 content) = false
  /\ contains (str "AWS::Foo::Bar") (slice 51 414 content) = false
  /\ extract content 51
     = inr (Fragment (nl ++ str "        ") 326 374 (str "bar_id") (str "AWS::Foo::Bar"))
  /\ (process_match content m).2 = Migrated
  /\ contains (fetch_call (str "AWS::Foo::Bar") (str "bar_id"))
       (process_match content m).1 = true
  /\ iterations (migrate_text "a.rs" Samples.bar_foo_file)
     = [(ImplMatch (str "FooNormalizer") 416, Migrated); (m, Migrated)]
  /\ printed (migrate_text "a.rs" Samples.bar_foo_file)
     = [MProcessing "a.rs"; MFound 2; MMigrated 2]
  /\ contains (fetch_call (str "AWS::Foo::Bar") (str "bar_id"))
       (final_buffer Samples.bar_foo_file) = true
  /\ contains (warn_call (str "AWS::Foo::Bar") (str "bar_id"))
       (final_buffer Samples.bar_foo_file) = true
  /\ iterations (migrate_text "a.rs" Samples.foo_bar_file)
     = [(ImplMatch (str "BarNormalizer") 493, NoResourceType);
        (ImplMatch (str "FooNormalizer") 51, Migrated)].
Proof.
  intros content m.
  assert (locate content = [m; ImplMatch (str "FooNormalizer") 416]) as L
    by (vm_compute; reflexivity).
  split; [rewrite L; apply list_elem_of_here|].
  repeat split; vm_compute; reflexivity.
Qed.
